(** * The quiz session of src/index.tsx

    A shallow embedding of the arithmetic trainer: the problem source
    ([generateDailyProblems]), the React state of [App] with its three
    handlers ([startTraining], [handleSubmit], [handleNext]), the part of the
    render function that decides which handler the page offers, and the
    grading rule on IEEE 754 binary64 numbers. *)

From Stdlib Require Import ZArith List String Ascii Bool Lia.
From Stdlib Require Import SpecFloat.
Import ListNotations.
Open Scope string_scope.
Open Scope list_scope.

(** ** JavaScript numbers

    A JavaScript number is a binary64 float.  [spec_float] with precision 53
    and maximal exponent 1024 is that format, NaN, infinities and signed
    zeros included; its operations round to nearest, ties to even. *)

Module Number.

Definition prec : Z := 53.
Definition emax : Z := 1024.

Definition number : Type := spec_float.

Definition NaN : number := S754_nan.

(** [x - y] *)
Definition sub (x y : number) : number := SFsub prec emax x y.

(** [Math.abs(x)] *)
Definition abs (x : number) : number := SFabs x.

(** [x < y]: false as soon as one side is NaN *)
Definition lt (x y : number) : bool := SFltb x y.

(** The number an integer literal denotes. *)
Definition of_Z (z : Z) : number := binary_normalize prec emax z 0 false.

(** The number nearest to [m * 10 ^ e10], with the sign [neg]: the value of
    a decimal literal whose digits are [m] and whose exponent is [e10]. *)
Definition of_decimal (neg : bool) (m : N) (e10 : Z) : number :=
  match m with
  | N0 => S754_zero neg
  | Npos p =>
      match e10 with
      | Zneg n =>
          let '(q, e, l) :=
            SFdiv_core_binary prec emax (Zpos p) 0 (Z.pow_pos 10 n) 0 in
          binary_round_aux prec emax neg q e l
      | _ => binary_round prec emax neg (Z.to_pos (Zpos p * 10 ^ e10)) 0
      end
  end.

(** The literal [0.01] of the grading rule. *)
Definition tolerance : number := S754_finite false 5764607523034235 (-59).

End Number.

Import Number.

(** Numbers that are neither NaN nor an infinity. *)
Definition finite (x : number) : bool :=
  match x with
  | S754_zero _ | S754_finite _ _ _ => true
  | S754_infinity _ | S754_nan => false
  end.

(** [x] is the integer [a], held without rounding: a zero for 0, else a
    mantissa and an exponent between -52 and 0 whose product is [a]. *)
Definition holds_integer (x : number) (a : Z) : Prop :=
  match x with
  | S754_zero _ => a = 0%Z
  | S754_finite s m e =>
      (-52 <= e <= 0)%Z /\ (cond_Zopp s (Zpos m) = a * 2 ^ (- e))%Z
      /\ a <> 0%Z
  | S754_infinity _ | S754_nan => False
  end.

(** Numbers that are not below the tolerance in absolute value because of
    their exponent alone: infinities, NaN, and finite numbers of exponent
    -52 or more (the tolerance has exponent -59). *)
Definition coarse (r : number) : Prop :=
  match r with
  | S754_zero _ => False
  | S754_finite _ _ e => (-52 <= e)%Z
  | S754_infinity _ | S754_nan => True
  end.

(** The well-formed numbers: every JavaScript number is one, with a mantissa
    of 53 bits, or fewer at the least exponent -1074, and an exponent of at
    most 971. *)
Definition binary64 (x : number) : bool := valid_binary prec emax x.

(** The value of a finite number counted in units of 2^-1074, the least
    positive binary64 number; every finite binary64 number is a whole number
    of them.  Infinities and NaN have no value and are given 0. *)
Definition units (x : number) : Z :=
  match x with
  | S754_finite s m e => (cond_Zopp s (Zpos m) * 2 ^ (e + 1074))%Z
  | S754_zero _ | S754_infinity _ | S754_nan => 0%Z
  end.

(** ** Types *)

Record MathProblem : Type := {
  question : string;
  answer : number;
  explanation : string;
  type : string
}.

Module HistoryItem.
Record t : Type := {
  problem : MathProblem;
  userAnswer : string;
  isCorrect : bool
}.
End HistoryItem.

Inductive GameState : Type := intro | loading | playing | summary.

(** The seven [useState] cells of [App].  The index and the score are
    numbers that only ever hold small natural numbers. *)
Record State : Type := {
  gameState : GameState;
  problems : list MathProblem;
  currentIndex : nat;
  userAnswer : string;
  showExplanation : bool;
  history : list HistoryItem.t;
  score : nat
}.

(** The values [useState] is given: what the first render sees. *)
Definition initial : State := {|
  gameState := intro;
  problems := [];
  currentIndex := 0;
  userAnswer := EmptyString;
  showExplanation := false;
  history := [];
  score := 0
|}.

(** ** State updates

    A handler does not change the state: it reads the values of the render it
    was created in and queues updates.  A setter takes either a value or a
    function of the previous value ([setScore(s => s + 1)]); the queue is
    applied in order once the handler is done. *)

Inductive SetStateAction (A : Type) : Type :=
  | Value (v : A)
  | Updater (f : A -> A).
Arguments Value {A} v.
Arguments Updater {A} f.

Definition resolve {A : Type} (a : SetStateAction A) (prev : A) : A :=
  match a with
  | Value v => v
  | Updater f => f prev
  end.

Inductive Update : Type :=
  | setGameState (a : SetStateAction GameState)
  | setProblems (a : SetStateAction (list MathProblem))
  | setCurrentIndex (a : SetStateAction nat)
  | setUserAnswer (a : SetStateAction string)
  | setShowExplanation (a : SetStateAction bool)
  | setHistory (a : SetStateAction (list HistoryItem.t))
  | setScore (a : SetStateAction nat).

Definition apply_update (s : State) (u : Update) : State :=
  match u with
  | setGameState a =>
      {| gameState := resolve a (gameState s); problems := problems s;
         currentIndex := currentIndex s; userAnswer := userAnswer s;
         showExplanation := showExplanation s; history := history s;
         score := score s |}
  | setProblems a =>
      {| gameState := gameState s; problems := resolve a (problems s);
         currentIndex := currentIndex s; userAnswer := userAnswer s;
         showExplanation := showExplanation s; history := history s;
         score := score s |}
  | setCurrentIndex a =>
      {| gameState := gameState s; problems := problems s;
         currentIndex := resolve a (currentIndex s); userAnswer := userAnswer s;
         showExplanation := showExplanation s; history := history s;
         score := score s |}
  | setUserAnswer a =>
      {| gameState := gameState s; problems := problems s;
         currentIndex := currentIndex s; userAnswer := resolve a (userAnswer s);
         showExplanation := showExplanation s; history := history s;
         score := score s |}
  | setShowExplanation a =>
      {| gameState := gameState s; problems := problems s;
         currentIndex := currentIndex s; userAnswer := userAnswer s;
         showExplanation := resolve a (showExplanation s); history := history s;
         score := score s |}
  | setHistory a =>
      {| gameState := gameState s; problems := problems s;
         currentIndex := currentIndex s; userAnswer := userAnswer s;
         showExplanation := showExplanation s; history := resolve a (history s);
         score := score s |}
  | setScore a =>
      {| gameState := gameState s; problems := problems s;
         currentIndex := currentIndex s; userAnswer := userAnswer s;
         showExplanation := showExplanation s; history := history s;
         score := resolve a (score s) |}
  end.

(** The state after the queued updates. *)
Definition commit (queue : list Update) (s : State) : State :=
  fold_left apply_update queue s.

(** ** Completions

    A call either returns a value or throws. *)

Inductive Completion (A : Type) : Type :=
  | Normal (a : A)
  | Throw.
Arguments Normal {A} a.
Arguments Throw {A}.

Definition bind {A B : Type} (c : Completion A) (k : A -> Completion B) :
  Completion B :=
  match c with
  | Normal a => k a
  | Throw => Throw
  end.

Notation "x <- c ;; k" := (bind c (fun x => k))
  (at level 61, c at next level, right associativity).

(** [try { body } catch (error) { return handler }] *)
Definition try_catch {A : Type} (body : Completion A) (handler : A) : A :=
  match body with
  | Normal a => a
  | Throw => handler
  end.

(** [!text] for [text : string | undefined] *)
Definition falsy (text : option string) : bool :=
  match text with
  | None => true
  | Some t => String.eqb t EmptyString
  end.

(** ** The problem source *)

(** The array the [catch] block returns. *)
Definition fallback : list MathProblem := [
  {| question := "25 × 44"; answer := of_Z 1100;
     explanation := "把44拆分成4×11，然后25×4=100，100×11=1100";
     type := "乘法结合律" |};
  {| question := "135 + 289 + 65"; answer := of_Z 489;
     explanation := "利用加法交换律，先算135+65=200，再加289等于489";
     type := "加法凑整" |};
  {| question := "47 × 99 + 47"; answer := of_Z 4700;
     explanation := "提取公因数47，变成 47 × (99 + 1) = 47 × 100";
     type := "乘法分配律" |}
].

Section ProblemSource.

(** [JSON.parse] returns [any]; the source asserts [as MathProblem[]]
    without a check, and the embedding takes the built-in at that type:
    [Normal v] reads "returns the array [v]", [Throw] reads "throws
    SyntaxError". *)
Variable JSON_parse : string -> Completion (list MathProblem).

(** The body of the [try] block, given how the awaited
    [ai.models.generateContent] call settled: [Throw] when it rejected,
    [Normal text] with [text = response.text] when it answered. *)
Definition generate_try (response : Completion (option string)) :
  Completion (list MathProblem) :=
  text <- response ;;
  if falsy text then Throw      (* throw new Error("No response from AI") *)
  else
    match text with
    | Some t => JSON_parse t
    | None => Throw
    end.

(** [ai] is how [new GoogleGenAI({ apiKey: process.env.API_KEY })]
    completed.  It stands before the [try] block: when it throws, so does the
    function, and nothing below it runs. *)
Definition generateDailyProblems (ai : Completion unit)
  (response : Completion (option string)) : Completion (list MathProblem) :=
  _ <- ai ;;
  Normal (try_catch (generate_try response) fallback).

(** The call failed: the request threw, [response.text] is undefined or
    empty, or the text is not JSON. *)
Definition generation_fails (response : Completion (option string)) : Prop :=
  match response with
  | Throw => True
  | Normal None => True
  | Normal (Some t) => t = EmptyString \/ JSON_parse t = Throw
  end.

End ProblemSource.

(** ** The component *)

Module App.

Section Handlers.

Variable parseFloat : string -> number.
Variable JSON_parse : string -> Completion (list MathProblem).

(** ** The handlers

    Each takes the state of the render it closes over and returns the
    updates it queues. *)

(** [startTraining] up to its [await]. *)
Definition startTraining_begin : list Update :=
  [setGameState (Value loading)].

(** [startTraining] from its [await] on, with the awaited array. *)
Definition startTraining_resume (newProblems : list MathProblem) :
  list Update :=
  [setProblems (Value newProblems);
   setCurrentIndex (Value 0);
   setScore (Value 0);
   setHistory (Value []);
   setUserAnswer (Value EmptyString);
   setShowExplanation (Value false);
   setGameState (Value playing)].

(** [Math.abs(numAnswer - currentProblem.answer) < 0.01] *)
Definition grade (numAnswer : number) (currentProblem : MathProblem) : bool :=
  lt (abs (sub numAnswer (answer currentProblem))) tolerance.

(** [e.preventDefault()] touches no state.  With [problems[currentIndex]]
    undefined, reading [.answer] throws a TypeError; no setter has been
    called by then, so nothing is queued. *)
Definition handleSubmit (r : State) : list Update :=
  if String.eqb (userAnswer r) EmptyString then []
  else
    let numAnswer := parseFloat (userAnswer r) in
    match nth_error (problems r) (currentIndex r) with
    | None => []
    | Some currentProblem =>
        let isCorrect := grade numAnswer currentProblem in
        let newItem :=
          {| HistoryItem.problem := currentProblem;
             HistoryItem.userAnswer := userAnswer r;
             HistoryItem.isCorrect := isCorrect |} in
        (if isCorrect then [setScore (Updater (fun s => s + 1))] else [])
        ++ [setHistory (Value (history r ++ [newItem]));
            setShowExplanation (Value true)]
    end.

(** [problems.length - 1] is [-1] on the empty array, so the comparison is
    made on integers.  The [setTimeout] that focuses the input touches no
    state. *)
Definition handleNext (r : State) : list Update :=
  if (Z.of_nat (currentIndex r) <? Z.of_nat (List.length (problems r)) - 1)%Z
  then [setCurrentIndex (Updater (fun c => c + 1));
        setUserAnswer (Value EmptyString);
        setShowExplanation (Value false)]
  else [setGameState (Value summary)].

(** ** The session as a state machine *)

Inductive Event : Type :=
  | click_start                                      (* onClick={startTraining} *)
  | settled (ai : Completion unit)
      (response : Completion (option string))        (* the awaited call settles *)
  | change (value : string)                          (* onChange of the input *)
  | submit                                           (* onSubmit of the form *)
  | click_next.                                      (* onClick={handleNext} *)

Definition handler (e : Event) (r : State) : list Update :=
  match e with
  | click_start => startTraining_begin
  | settled ai response =>
      match generateDailyProblems JSON_parse ai response with
      | Normal newProblems => startTraining_resume newProblems
      | Throw => []      (* [startTraining] rejects at its [await] *)
      end
  | change value => [setUserAnswer (Value value)]
  | submit => handleSubmit r
  | click_next => handleNext r
  end.

(** The page is rendered again after every handler, so a handler always
    closes over the current state. *)
Definition step (s : State) (e : Event) : State := commit (handler e s) s.

(** What the render function offers: the start button on the intro and
    summary screens, nothing while loading (the pending call is what
    settles), the form while the explanation is hidden and the next button
    while it is shown.  After a call that threw the screen stays on loading
    and the machine still lets a call settle: this only adds states.  On the
    playing screen with [problems[currentIndex]] undefined the render throws
    at [currentProblem.type] before the form exists, and the machine still
    offers the form: this only adds events, which change nothing but the
    text typed ([handleSubmit] throws before any update). *)
Definition enabled (s : State) (e : Event) : bool :=
  match gameState s, e with
  | intro, click_start => true
  | summary, click_start => true
  | loading, settled _ _ => true
  | playing, change _ => negb (showExplanation s)
  | playing, submit => negb (showExplanation s)
  | playing, click_next => showExplanation s
  | _, _ => false
  end.

Fixpoint run (s : State) (es : list Event) : option State :=
  match es with
  | [] => Some s
  | e :: es' => if enabled s e then run (step s e) es' else None
  end.

Definition reachable (s : State) : Prop :=
  exists es, run initial es = Some s.

(** The number of history entries graded correct. *)
Definition correct_count (h : list HistoryItem.t) : nat :=
  List.length (filter HistoryItem.isCorrect h).

(** What every reachable state satisfies: the score counts the correct
    entries; while playing, the history holds one entry per problem left
    behind, and one more once the current answer is revealed; while
    playing on a non-empty array, the index is within it. *)
Record Inv (s : State) : Prop := {
  inv_score : score s = correct_count (history s);
  inv_history :
    gameState s = playing ->
    List.length (history s)
    = currentIndex s + (if showExplanation s then 1 else 0);
  inv_index :
    gameState s = playing -> problems s <> [] ->
    currentIndex s < List.length (problems s)
}.

End Handlers.

(** ** What the page shows

    The parts of the render function that compute something from the
    state. *)

Section Render.

Variable parseFloat : string -> number.

(** [const currentProblem = problems[currentIndex]] of the playing screen;
    [None] is [undefined], on which the screen throws when it reads
    [currentProblem.type]. *)
Definition currentProblem (s : State) : option MathProblem :=
  nth_error (problems s) (currentIndex s).

(** The verdict of the explanation panel, computed again from the answer
    text: true shows "回答正确!", false shows the right answer. *)
Definition panel_verdict (s : State) : option bool :=
  option_map (grade (parseFloat (userAnswer s))) (currentProblem s).

(** [disabled={!userAnswer}] of the submit button. *)
Definition submit_disabled (s : State) : bool :=
  String.eqb (userAnswer s) EmptyString.

(** The label of the button that calls [handleNext]. *)
Definition next_label (s : State) : string :=
  if (Z.of_nat (currentIndex s) =? Z.of_nat (List.length (problems s)) - 1)%Z
  then "查看成绩 🏁"
  else "下一道题 ➡️".

(** The sentence under the score on the summary screen. *)
Definition summary_message (score : nat) : string :=
  if (score =? 10)%nat then "太棒了！你是巧算大师！🏆"
  else if (8 <=? score)%nat then "非常优秀！继续保持！🌟"
  else "干得不错！继续加油哦！💪".

(** The record [handleSubmit] builds for a problem and an answer text. *)
Definition record_of (p : MathProblem) (text : string) : HistoryItem.t :=
  {| HistoryItem.problem := p;
     HistoryItem.userAnswer := text;
     HistoryItem.isCorrect := grade (parseFloat text) p |}.

(** What the history of every reachable state satisfies: its records are
    those of the first problems of the array, in order, each built by
    [handleSubmit] from a non-empty text; while the explanation is shown
    the last record is that of the current problem and of the text still
    in the input; on the summary screen there is a record for every
    problem. *)
Record Recorded (s : State) : Prop := {
  rec_problems :
    map HistoryItem.problem (history s)
    = firstn (List.length (history s)) (problems s);
  rec_graded :
    Forall (fun item =>
              HistoryItem.userAnswer item <> EmptyString
              /\ item = record_of (HistoryItem.problem item)
                                  (HistoryItem.userAnswer item))
           (history s);
  rec_revealed :
    gameState s = playing -> showExplanation s = true ->
    exists p before,
      currentProblem s = Some p
      /\ userAnswer s <> EmptyString
      /\ history s = before ++ [record_of p (userAnswer s)];
  rec_summary :
    gameState s = summary ->
    List.length (history s) = List.length (problems s)
}.

(** The events of answering one problem, and of answering one after the
    other. *)
Definition answer_events (text : string) : list Event :=
  [change text; submit; click_next].

Definition quiz_events (texts : list string) : list Event :=
  List.concat (map answer_events texts).

(** The records of a quiz: problem by problem, with the text given. *)
Definition records (ps : list MathProblem) (texts : list string) :
  list HistoryItem.t :=
  map (fun pt => record_of (fst pt) (snd pt)) (combine ps texts).

End Render.

End App.

Import App.

(** ** The built-ins, executable

    [parseFloat] and [JSON.parse] as ECMAScript defines them, on strings held
    as UTF-8 bytes.  The theorems below hold for any pair of functions at the
    types of the section; these two are the ones the example runs use. *)

Module JS.

Definition code (c : ascii) : N := N_of_ascii c.

Definition digit (c : ascii) : option N :=
  let n := code c in
  if ((48 <=? n) && (n <=? 57))%N then Some (n - 48)%N else None.

(** Reads decimal digits onto [acc]; returns the number read so far, how
    many digits were read, and the rest. *)
Fixpoint read_digits (s : string) (acc : N) (count : nat) :
  N * nat * string :=
  match s with
  | String c s' =>
      match digit c with
      | Some d => read_digits s' (10 * acc + d)%N (S count)
      | None => (acc, count, s)
      end
  | EmptyString => (acc, count, s)
  end.

(** An optional sign. *)
Definition read_sign (plus : bool) (s : string) : bool * string :=
  match s with
  | String c s' =>
      if (code c =? 45)%N then (true, s')
      else if plus && (code c =? 43)%N then (false, s')
      else (false, s)
  | EmptyString => (false, s)
  end.

(** An exponent part [e], [e+] or [e-] followed by digits; [0] and the
    input when there is none. *)
Definition read_exponent (s : string) : Z * string :=
  match s with
  | String c s' =>
      if ((code c =? 101) || (code c =? 69))%N then
        let '(neg, s1) := read_sign true s' in
        let '(e, count, s2) := read_digits s1 0%N 0 in
        match count with
        | O => (0%Z, s)
        | S _ => ((if neg then - Z.of_N e else Z.of_N e)%Z, s2)
        end
      else (0%Z, s)
  | EmptyString => (0%Z, s)
  end.

(** The rest after one white space or line terminator character, in
    UTF-8: TAB, LF, VT, FF, CR, SP, U+00A0, U+1680, U+2000 to U+200A,
    U+2028, U+2029, U+202F, U+205F, U+3000, U+FEFF. *)
Definition after_space (s : string) : option string :=
  match s with
  | String a s1 =>
      let a := code a in
      if (((9 <=? a) && (a <=? 13)) || (a =? 32))%N then Some s1
      else
        match s1 with
        | String b s2 =>
            let b := code b in
            if ((a =? 194) && (b =? 160))%N then Some s2
            else
              match s2 with
              | String c s3 =>
                  let c := code c in
                  if (((a =? 225) && (b =? 154) && (c =? 128))
                      || ((a =? 226) && (b =? 128)
                          && (((128 <=? c) && (c <=? 138))
                              || (c =? 168) || (c =? 169) || (c =? 175)))
                      || ((a =? 226) && (b =? 129) && (c =? 159))
                      || ((a =? 227) && (b =? 128) && (c =? 128))
                      || ((a =? 239) && (b =? 187) && (c =? 191)))%N
                  then Some s3
                  else None
              | EmptyString => None
              end
        | EmptyString => None
        end
  | EmptyString => None
  end.

Fixpoint trim_start_fuel (fuel : nat) (s : string) : string :=
  match fuel with
  | O => s
  | S fuel' =>
      match after_space s with
      | Some s' => trim_start_fuel fuel' s'
      | None => s
      end
  end.

Definition trim_start (s : string) : string :=
  trim_start_fuel (String.length s) s.

(** [parseFloat(string)]: the value of the longest prefix of the trimmed
    string that is a StrDecimalLiteral, NaN when there is none. *)
Definition parseFloat (s : string) : number :=
  let '(neg, s1) := read_sign true (trim_start s) in
  if String.prefix "Infinity" s1 then S754_infinity neg
  else
    let '(m1, n1, s2) := read_digits s1 0%N 0 in
    let '(m, nfrac, s3) :=
      match s2 with
      | String c s2' =>
          if (code c =? 46)%N then
            let '(m2, n2, r) := read_digits s2' m1 0 in
            match n1, n2 with
            | O, O => (m1, 0, s2)
            | _, _ => (m2, n2, r)
            end
          else (m1, 0, s2)
      | EmptyString => (m1, 0, s2)
      end in
    match n1, nfrac with
    | O, O => NaN
    | _, _ =>
        let '(e, _) := read_exponent s3 in
        of_decimal neg m (e - Z.of_nat nfrac)
    end.

(** *** JSON *)

#[warnings="-register-all"]
Inductive json : Type :=
  | JNull
  | JBool (b : bool)
  | JNumber (n : number)
  | JString (s : string)
  | JArray (elements : list json)
  | JObject (members : list (string * json)).

(** JSON white space: SP, TAB, LF, CR. *)
Fixpoint skip_ws (s : string) : string :=
  match s with
  | String c s' =>
      let n := code c in
      if ((n =? 32) || (n =? 9) || (n =? 10) || (n =? 13))%N
      then skip_ws s' else s
  | EmptyString => s
  end.

(** [s] without the prefix [p], when it starts with it. *)
Fixpoint strip (p s : string) : option string :=
  match p, s with
  | EmptyString, _ => Some s
  | String a p', String b s' => if Ascii.eqb a b then strip p' s' else None
  | String _ _, EmptyString => None
  end.

Definition hex (c : ascii) : option N :=
  let n := code c in
  if ((48 <=? n) && (n <=? 57))%N then Some (n - 48)%N
  else if ((97 <=? n) && (n <=? 102))%N then Some (n - 87)%N
  else if ((65 <=? n) && (n <=? 70))%N then Some (n - 55)%N
  else None.

Definition read_hex4 (s : string) : option (N * string) :=
  match s with
  | String a (String b (String c (String d r))) =>
      match hex a, hex b, hex c, hex d with
      | Some a, Some b, Some c, Some d =>
          Some ((((a * 16 + b) * 16 + c) * 16 + d)%N, r)
      | _, _, _, _ => None
      end
  | _ => None
  end.

Definition byte (n : N) : string := String (ascii_of_N n) EmptyString.

(** The UTF-8 bytes of a code point (of a lone surrogate too). *)
Definition utf8 (cp : N) : string :=
  (if (cp <? 128)%N then byte cp
   else if (cp <? 2048)%N then
     byte (192 + cp / 64)%N ++ byte (128 + cp mod 64)%N
   else if (cp <? 65536)%N then
     byte (224 + cp / 4096)%N ++ byte (128 + (cp / 64) mod 64)%N
     ++ byte (128 + cp mod 64)%N
   else
     byte (240 + cp / 262144)%N ++ byte (128 + (cp / 4096) mod 64)%N
     ++ byte (128 + (cp / 64) mod 64)%N ++ byte (128 + cp mod 64)%N)%string.

(** What follows a backslash in a string: the bytes it stands for and the
    rest.  A high surrogate escape followed by a low surrogate escape is
    one code point. *)
Definition read_escape (s : string) : option (string * string) :=
  match s with
  | EmptyString => None
  | String e r =>
      let k := code e in
      if ((k =? 34) || (k =? 92) || (k =? 47))%N then Some (byte k, r)
      else if (k =? 98)%N then Some (byte 8, r)
      else if (k =? 102)%N then Some (byte 12, r)
      else if (k =? 110)%N then Some (byte 10, r)
      else if (k =? 114)%N then Some (byte 13, r)
      else if (k =? 116)%N then Some (byte 9, r)
      else if (k =? 117)%N then
        match read_hex4 r with
        | None => None
        | Some (hi, r1) =>
            let alone := Some (utf8 hi, r1) in
            if ((55296 <=? hi) && (hi <=? 56319))%N then
              match r1 with
              | String b (String u r2) =>
                  if ((code b =? 92) && (code u =? 117))%N then
                    match read_hex4 r2 with
                    | Some (lo, r3) =>
                        if ((56320 <=? lo) && (lo <=? 57343))%N
                        then Some (utf8 (65536 + (hi - 55296) * 1024
                                         + (lo - 56320))%N, r3)
                        else alone
                    | None => alone
                    end
                  else alone
              | _ => alone
              end
            else alone
        end
      else None
  end.

(** The characters of a string literal after its opening quote, up to
    the closing one. *)
Fixpoint read_string (fuel : nat) (s : string) : option (string * string) :=
  match fuel, s with
  | S fuel', String c s1 =>
      let n := code c in
      if (n =? 34)%N then Some (EmptyString, s1)
      else if (n <? 32)%N then None
      else if (n =? 92)%N then
        match read_escape s1 with
        | Some (bytes, s2) =>
            match read_string fuel' s2 with
            | Some (t, r) => Some ((bytes ++ t)%string, r)
            | None => None
            end
        | None => None
        end
      else
        match read_string fuel' s1 with
        | Some (t, r) => Some (String c t, r)
        | None => None
        end
  | _, _ => None
  end.

(** A JSON number: [-]? int frac? exp?, no leading zero, digits after
    the point and after the exponent mark. *)
Definition read_number (s : string) : option (number * string) :=
  let '(neg, s1) := read_sign false s in
  let int :=
    match s1 with
    | String c s1' =>
        if (code c =? 48)%N then Some (0%N, s1')
        else
          let '(m, count, r) := read_digits s1 0%N 0 in
          match count with
          | O => None
          | S _ => Some (m, r)
          end
    | EmptyString => None
    end in
  match int with
  | None => None
  | Some (m1, s2) =>
      let frac :=
        match s2 with
        | String c s2' =>
            if (code c =? 46)%N then
              let '(m2, count, r) := read_digits s2' m1 0 in
              match count with
              | O => None
              | S _ => Some (m2, count, r)
              end
            else Some (m1, 0, s2)
        | EmptyString => Some (m1, 0, s2)
        end in
      match frac with
      | None => None
      | Some (m, nfrac, s3) =>
          match s3 with
          | String c s3' =>
              if ((code c =? 101) || (code c =? 69))%N then
                let '(eneg, s4) := read_sign true s3' in
                let '(e, count, s5) := read_digits s4 0%N 0 in
                match count with
                | O => None
                | S _ =>
                    let e := (if eneg then - Z.of_N e else Z.of_N e)%Z in
                    Some (of_decimal neg m (e - Z.of_nat nfrac), s5)
                end
              else Some (of_decimal neg m (- Z.of_nat nfrac), s3)
          | EmptyString => Some (of_decimal neg m (- Z.of_nat nfrac), s3)
          end
      end
  end.

Definition lift {A B : Type} (f : A -> B) (r : option (A * string)) :
  option (B * string) :=
  match r with
  | Some (a, rest) => Some (f a, rest)
  | None => None
  end.

(** A value; the elements of an array after its bracket, up to and with
    the closing one; the members of an object likewise. *)
Fixpoint read_value (fuel : nat) (s : string) : option (json * string) :=
  match fuel with
  | O => None
  | S fuel' =>
      match skip_ws s with
      | EmptyString => None
      | String c r as s0 =>
          let k := code c in
          if (k =? 91)%N then
            match skip_ws r with
            | EmptyString => None
            | String c' r' as r0 =>
                if (code c' =? 93)%N then Some (JArray [], r')
                else lift JArray (read_elements fuel' r0)
            end
          else if (k =? 123)%N then
            match skip_ws r with
            | EmptyString => None
            | String c' r' as r0 =>
                if (code c' =? 125)%N then Some (JObject [], r')
                else lift JObject (read_members fuel' r0)
            end
          else if (k =? 34)%N then
            lift JString (read_string (String.length r) r)
          else if (k =? 110)%N then
            option_map (pair (JNull)) (strip "null" s0)
          else if (k =? 116)%N then
            option_map (pair (JBool true)) (strip "true" s0)
          else if (k =? 102)%N then
            option_map (pair (JBool false)) (strip "false" s0)
          else lift JNumber (read_number s0)
      end
  end
with read_elements (fuel : nat) (s : string) :
  option (list json * string) :=
  match fuel with
  | O => None
  | S fuel' =>
      match read_value fuel' s with
      | None => None
      | Some (v, r) =>
          match skip_ws r with
          | EmptyString => None
          | String c r1 =>
              if (code c =? 44)%N then
                lift (cons v) (read_elements fuel' r1)
              else if (code c =? 93)%N then Some ([v], r1)
              else None
          end
      end
  end
with read_members (fuel : nat) (s : string) :
  option (list (string * json) * string) :=
  match fuel with
  | O => None
  | S fuel' =>
      match skip_ws s with
      | EmptyString => None
      | String q r =>
          if (code q =? 34)%N then
            match read_string (String.length r) r with
            | None => None
            | Some (key, r1) =>
                match skip_ws r1 with
                | EmptyString => None
                | String c r2 =>
                    if (code c =? 58)%N then
                      match read_value fuel' r2 with
                      | None => None
                      | Some (v, r3) =>
                          match skip_ws r3 with
                          | EmptyString => None
                          | String c' r4 =>
                              if (code c' =? 44)%N then
                                lift (cons (key, v)) (read_members fuel' r4)
                              else if (code c' =? 125)%N
                              then Some ([(key, v)], r4)
                              else None
                          end
                      end
                    else None
                end
            end
          else None
      end
  end.

(** [JSON.parse(text)]: every call above consumes a character within two
    steps, so twice the length of the text is fuel enough. *)
Definition parse (text : string) : Completion json :=
  match read_value (2 * String.length text + 2) text with
  | Some (v, rest) =>
      match skip_ws rest with
      | EmptyString => Normal v
      | String _ _ => Throw
      end
  | None => Throw
  end.

(** The member named [key]; of two with one name the later one stands. *)
Definition member (key : string) (members : list (string * json)) :
  option json :=
  fold_left
    (fun found m => if String.eqb (fst m) key then Some (snd m) else found)
    members None.

Definition as_MathProblem (v : json) : option MathProblem :=
  match v with
  | JObject ms =>
      match member "question" ms, member "answer" ms,
            member "explanation" ms, member "type" ms with
      | Some (JString q), Some (JNumber a), Some (JString e),
        Some (JString t) =>
          Some {| question := q; answer := a; explanation := e; type := t |}
      | _, _, _, _ => None
      end
  | _ => None
  end.

Fixpoint as_MathProblems (vs : list json) : option (list MathProblem) :=
  match vs with
  | [] => Some []
  | v :: vs' =>
      match as_MathProblem v, as_MathProblems vs' with
      | Some p, Some ps => Some (p :: ps)
      | _, _ => None
      end
  end.

(** [JSON.parse(text) as MathProblem[]] on the texts whose value is an
    array of objects with the four fields.  On a text whose value has
    another shape the source goes on with an ill-typed array, which
    [list MathProblem] cannot hold: the answer [Throw] given there is
    outside the model and nothing below rests on it. *)
Definition JSON_parse (text : string) : Completion (list MathProblem) :=
  match parse text with
  | Normal (JArray vs) =>
      match as_MathProblems vs with
      | Some ps => Normal ps
      | None => Throw
      end
  | _ => Throw
  end.

End JS.

(** ** Sample sessions

    Runs of the component on the executable built-ins. *)

Module Sample.

Definition step : State -> Event -> State :=
  App.step JS.parseFloat JS.JSON_parse.

Definition run : list Event -> option State :=
  App.run JS.parseFloat JS.JSON_parse initial.

Definition state_after (es : list Event) : State :=
  match run es with
  | Some s => s
  | None => initial
  end.

(** The request fails and the quiz starts on the fallback. *)
Definition started : list Event :=
  [click_start; settled (Normal tt) Throw].

(** The first problem is answered with its answer. *)
Definition first_submitted : list Event :=
  started ++ [change "1100"; submit].

(** Then the second with a text that is no number, and "4700" is typed
    for the third. *)
Definition third_typed : list Event :=
  first_submitted
  ++ [click_next; change "abc"; submit; click_next; change "4700"].

Definition third_submitted : list Event := third_typed ++ [submit].

Definition finished : list Event := third_submitted ++ [click_next].

(** The service answers an empty array. *)
Definition empty_array : list Event :=
  [click_start; settled (Normal tt) (Normal (Some "[]"))].

(** [s] with a double quote for every apostrophe, to write JSON texts. *)
Fixpoint quoted (s : string) : string :=
  match s with
  | String c s' =>
      String (if (JS.code c =? 39)%N then ascii_of_N 34 else c) (quoted s')
  | EmptyString => EmptyString
  end.

(** The service answers an array of one problem. *)
Definition one_problem_text : string :=
  quoted "[{'question': '125 x 7 x 8', 'answer': 7000,
           'explanation': '125 x 8 = 1000, 1000 x 7 = 7000',
           'type': 'x'}]".

Definition one_problem : list MathProblem :=
  [{| question := "125 x 7 x 8"; answer := of_Z 7000;
      explanation := "125 x 8 = 1000, 1000 x 7 = 7000"; type := "x" |}].

(** The service answers one problem whose answer is tiny, and a text a
    little below one hundredth is typed. *)
Definition tiny_answer_text : string :=
  quoted "[{'question': '1e-18 - 2e-18', 'answer': -1e-18,
           'explanation': '', 'type': ''}]".

Definition tiny_answer_typed : list Event :=
  [click_start; settled (Normal tt) (Normal (Some tiny_answer_text));
   change "0.009999999999999998"].

End Sample.

(** * Properties *)

Section Properties.

Variable parseFloat : string -> number.
Variable JSON_parse : string -> Completion (list MathProblem).

Local Abbreviation step := (App.step parseFloat JSON_parse).
Local Abbreviation run := (App.run parseFloat JSON_parse).
Local Abbreviation reachable := (App.reachable parseFloat JSON_parse).

(** ** What each transition does to the state *)

Lemma step_click_start (s : State) :
  step s click_start =
  {| gameState := loading; problems := problems s;
     currentIndex := currentIndex s; userAnswer := userAnswer s;
     showExplanation := showExplanation s; history := history s;
     score := score s |}.
Proof. reflexivity. Qed.

Lemma step_settled (s : State) (ai : Completion unit)
  (response : Completion (option string)) (newProblems : list MathProblem) :
  generateDailyProblems JSON_parse ai response = Normal newProblems ->
  step s (settled ai response) =
  {| gameState := playing; problems := newProblems;
     currentIndex := 0; userAnswer := EmptyString;
     showExplanation := false; history := []; score := 0 |}.
Proof.
  intros H. unfold App.step, handler. rewrite H. reflexivity.
Qed.

Lemma step_settled_thrown (s : State) (ai : Completion unit)
  (response : Completion (option string)) :
  generateDailyProblems JSON_parse ai response = Throw ->
  step s (settled ai response) = s.
Proof.
  intros H. unfold App.step, handler. rewrite H. reflexivity.
Qed.

(** When the constructor throws, the error is not caught: the function
    throws, and the session stays on the loading screen. *)
Lemma generateDailyProblems_uncaught (response : Completion (option string))
  (s : State) :
  generateDailyProblems JSON_parse Throw response = Throw
  /\ step (step s click_start) (settled Throw response) = step s click_start.
Proof. split; reflexivity. Qed.

Lemma generateDailyProblems_constructed
  (response : Completion (option string)) :
  generateDailyProblems JSON_parse (Normal tt) response
  = Normal (try_catch (generate_try JSON_parse response) fallback).
Proof. reflexivity. Qed.

Lemma step_change (s : State) (value : string) :
  step s (change value) =
  {| gameState := gameState s; problems := problems s;
     currentIndex := currentIndex s; userAnswer := value;
     showExplanation := showExplanation s; history := history s;
     score := score s |}.
Proof. reflexivity. Qed.

Lemma step_submit_empty (s : State) :
  userAnswer s = EmptyString -> step s submit = s.
Proof.
  intros H. unfold App.step, handler, handleSubmit. rewrite H. reflexivity.
Qed.

Lemma step_submit_undefined (s : State) :
  nth_error (problems s) (currentIndex s) = None -> step s submit = s.
Proof.
  intros H. unfold App.step, handler, handleSubmit. rewrite H.
  destruct (String.eqb (userAnswer s) EmptyString); reflexivity.
Qed.

Lemma step_submit_graded (s : State) (currentProblem : MathProblem) :
  userAnswer s <> EmptyString ->
  nth_error (problems s) (currentIndex s) = Some currentProblem ->
  let isCorrect := grade (parseFloat (userAnswer s)) currentProblem in
  step s submit =
  {| gameState := gameState s; problems := problems s;
     currentIndex := currentIndex s; userAnswer := userAnswer s;
     showExplanation := true;
     history := history s ++
                [{| HistoryItem.problem := currentProblem;
                    HistoryItem.userAnswer := userAnswer s;
                    HistoryItem.isCorrect := isCorrect |}];
     score := if isCorrect then score s + 1 else score s |}.
Proof.
  intros Hne Hnth. apply String.eqb_neq in Hne.
  unfold App.step, handler, handleSubmit. rewrite Hne, Hnth.
  destruct (grade (parseFloat (userAnswer s)) currentProblem); reflexivity.
Qed.

Lemma step_click_next_more (s : State) :
  (Z.of_nat (currentIndex s) < Z.of_nat (List.length (problems s)) - 1)%Z ->
  step s click_next =
  {| gameState := gameState s; problems := problems s;
     currentIndex := currentIndex s + 1; userAnswer := EmptyString;
     showExplanation := false; history := history s; score := score s |}.
Proof.
  intros H. apply Z.ltb_lt in H.
  unfold App.step, handler, handleNext. rewrite H. reflexivity.
Qed.

Lemma step_click_next_last (s : State) :
  ~ (Z.of_nat (currentIndex s) < Z.of_nat (List.length (problems s)) - 1)%Z ->
  step s click_next =
  {| gameState := summary; problems := problems s;
     currentIndex := currentIndex s; userAnswer := userAnswer s;
     showExplanation := showExplanation s; history := history s;
     score := score s |}.
Proof.
  intros H. apply Z.ltb_nlt in H.
  unfold App.step, handler, handleNext. rewrite H. reflexivity.
Qed.

(** ** Grading *)

Lemma sub_NaN_l (y : number) : sub NaN y = NaN.
Proof. destruct y; reflexivity. Qed.

Lemma grade_NaN (p : MathProblem) : grade NaN p = false.
Proof. unfold grade. rewrite sub_NaN_l. reflexivity. Qed.

(** ** The invariant *)

Lemma correct_count_app (h : list HistoryItem.t) (item : HistoryItem.t) :
  correct_count (h ++ [item])
  = correct_count h + (if HistoryItem.isCorrect item then 1 else 0).
Proof.
  unfold correct_count. rewrite filter_app, length_app. simpl.
  destruct (HistoryItem.isCorrect item); reflexivity.
Qed.

Lemma Inv_initial : Inv initial.
Proof. split; simpl; [reflexivity | discriminate | discriminate]. Qed.

Lemma Inv_step (s : State) (e : Event) :
  Inv s -> enabled s e = true -> Inv (step s e).
Proof.
  intros [Hscore Hhist Hidx] Hen. unfold enabled in Hen.
  destruct e as [ | ai response | value | | ].
  - rewrite step_click_start. split; simpl; [exact Hscore | discriminate ..].
  - destruct (generateDailyProblems JSON_parse ai response)
      as [newProblems | ] eqn:Hgen.
    + rewrite (step_settled s ai response newProblems Hgen).
      split; simpl; [reflexivity | reflexivity | ].
      intros _ Hne. destruct newProblems; [contradiction | simpl; lia].
    + rewrite (step_settled_thrown s ai response Hgen).
      split; assumption.
  - rewrite step_change. split; simpl; assumption.
  - destruct (gameState s) eqn:Hg; try discriminate.
    apply negb_true_iff in Hen.
    destruct (string_dec (userAnswer s) EmptyString) as [Hempty | Hfull].
    { rewrite step_submit_empty by assumption.
      split; rewrite ?Hg; assumption. }
    destruct (nth_error (problems s) (currentIndex s)) as [p | ] eqn:Hnth.
    2: { rewrite step_submit_undefined by assumption.
         split; rewrite ?Hg; assumption. }
    rewrite (step_submit_graded s p Hfull Hnth). split; simpl.
    + rewrite correct_count_app. simpl.
      destruct (grade (parseFloat (userAnswer s)) p); lia.
    + intros _. rewrite length_app. simpl.
      specialize (Hhist eq_refl). rewrite Hen in Hhist. lia.
    + intros _. exact (Hidx eq_refl).
  - destruct (gameState s) eqn:Hg; try discriminate.
    destruct (Z_lt_dec (Z.of_nat (currentIndex s))
                (Z.of_nat (List.length (problems s)) - 1)) as [Hmore | Hlast].
    + rewrite step_click_next_more by assumption. split; simpl.
      * exact Hscore.
      * intros _. specialize (Hhist eq_refl). rewrite Hen in Hhist. lia.
      * intros _ _. lia.
    + rewrite step_click_next_last by assumption.
      split; simpl; [exact Hscore | discriminate ..].
Qed.

Lemma Inv_run (es : list Event) :
  forall s s', Inv s -> run s es = Some s' -> Inv s'.
Proof.
  induction es as [ | e es IH]; simpl; intros s s' HI Hrun.
  - injection Hrun as <-. exact HI.
  - destruct (enabled s e) eqn:Hen; [ | discriminate].
    eapply IH; [ | exact Hrun]. apply Inv_step; assumption.
Qed.

Lemma Inv_reachable (s : State) : reachable s -> Inv s.
Proof. intros [es Hrun]. exact (Inv_run es initial s Inv_initial Hrun). Qed.

(** ** The claims

    C1, on grading, rests on the arithmetic of the rounded difference and
    comes last, in section [GradingOnValues]. *)

(** C2.  In every state reachable from the initial one, the score is the
    number of history entries whose correctness flag is true. *)
Theorem score_counts_correct_entries :
  forall s : State, reachable s -> score s = correct_count (history s).
Proof. intros s Hs. exact (inv_score s (Inv_reachable s Hs)). Qed.

(** C3.  When the generation call fails (the request throws, the response
    text is missing or empty, or it is not JSON), [generateDailyProblems]
    does not throw: it returns the fallback array, which has three elements,
    the first with question "25 × 44"; and when [startTraining] resumes
    with it the session plays on those three problems. *)
Theorem generation_failure_falls_back :
  forall response : Completion (option string),
    generation_fails JSON_parse response ->
    generateDailyProblems JSON_parse (Normal tt) response = Normal fallback
    /\ List.length fallback = 3
    /\ option_map question (hd_error fallback) = Some "25 × 44"
    /\ forall s : State,
         gameState (step s (settled (Normal tt) response)) = playing
         /\ problems (step s (settled (Normal tt) response)) = fallback.
Proof.
  intros response Hfail.
  assert (Hgen : generateDailyProblems JSON_parse (Normal tt) response
                 = Normal fallback).
  { rewrite generateDailyProblems_constructed. f_equal. unfold generate_try.
    destruct response as [[t | ] | ]; simpl in *; try reflexivity.
    destruct Hfail as [-> | Hthrow]; [reflexivity | ].
    destruct (String.eqb t EmptyString); [reflexivity | ].
    rewrite Hthrow. reflexivity. }
  split; [exact Hgen | ]. split; [reflexivity | ]. split; [reflexivity | ].
  intros s. rewrite (step_settled s _ _ _ Hgen). split; reflexivity.
Qed.

(** C4.  Submitting with an empty answer text changes nothing: the history,
    the score and the screen are as before, and a hidden explanation stays
    hidden. *)
Theorem submit_empty_is_noop :
  forall s : State,
    gameState s = playing ->
    userAnswer s = EmptyString ->
    step s submit = s
    /\ history (step s submit) = history s
    /\ score (step s submit) = score s
    /\ gameState (step s submit) = playing
    /\ (showExplanation s = false ->
        showExplanation (step s submit) = false).
Proof.
  intros s Hplay Hempty. rewrite (step_submit_empty s Hempty).
  repeat split; auto.
Qed.

(** C5.  In a playing state with the explanation shown, advancing from an
    index below the last one adds one to the index, clears the answer text
    and hides the explanation, still playing; otherwise it moves to the
    summary and leaves problems, score and history as they are. *)
Theorem advance_moves_on_or_ends :
  forall s : State,
    gameState s = playing ->
    showExplanation s = true ->
    let last := (Z.of_nat (List.length (problems s)) - 1)%Z in
    ((Z.of_nat (currentIndex s) < last)%Z ->
     step s click_next =
     {| gameState := playing; problems := problems s;
        currentIndex := currentIndex s + 1; userAnswer := EmptyString;
        showExplanation := false; history := history s;
        score := score s |})
    /\ (~ (Z.of_nat (currentIndex s) < last)%Z ->
        gameState (step s click_next) = summary
        /\ problems (step s click_next) = problems s
        /\ score (step s click_next) = score s
        /\ history (step s click_next) = history s).
Proof.
  intros s Hplay Hshown last. split; intros H.
  - rewrite (step_click_next_more s H), Hplay. reflexivity.
  - rewrite (step_click_next_last s H). simpl. repeat split.
Qed.

(** C6.  From any state, [startTraining] first shows the loading screen
    (the intro and the summary screen both offer it), and once the call has
    resolved, with the generated array or with the fallback, the state is
    playing with index 0, score 0, no history, no answer text and the
    explanation hidden. *)
Theorem start_resets_session :
  forall (s : State) (ai : Completion unit)
         (response : Completion (option string))
         (newProblems : list MathProblem),
    generateDailyProblems JSON_parse ai response = Normal newProblems ->
    let s1 := step s click_start in
    let s2 := step s1 (settled ai response) in
    (gameState s = intro \/ gameState s = summary ->
     enabled s click_start = true)
    /\ gameState s1 = loading
    /\ enabled s1 (settled ai response) = true
    /\ s2 = {| gameState := playing; problems := newProblems;
               currentIndex := 0; userAnswer := EmptyString;
               showExplanation := false; history := []; score := 0 |}.
Proof.
  intros s ai response newProblems Hgen s1 s2.
  split; [unfold enabled; intros [-> | ->]; reflexivity | ].
  split; [reflexivity | ]. split; [reflexivity | ].
  exact (step_settled s1 ai response newProblems Hgen).
Qed.

(** C7.  In every reachable playing state the history is as long as the
    index while the explanation is hidden, and one longer while it is
    shown.  From such a state the index moves only by the advance
    transition, by one, which brings it level with the history again; and
    the history grows only by submit, which leaves it one ahead. *)
Theorem history_length_tracks_index :
  forall s : State,
    reachable s ->
    gameState s = playing ->
    (showExplanation s = false ->
     List.length (history s) = currentIndex s)
    /\ (showExplanation s = true ->
        List.length (history s) = currentIndex s + 1)
    /\ forall e : Event,
         enabled s e = true ->
         (currentIndex (step s e) <> currentIndex s ->
          e = click_next
          /\ currentIndex (step s e) = currentIndex s + 1
          /\ history (step s e) = history s
          /\ showExplanation (step s e) = false
          /\ List.length (history (step s e)) = currentIndex (step s e))
         /\ (List.length (history (step s e)) <> List.length (history s) ->
             e = submit
             /\ currentIndex (step s e) = currentIndex s
             /\ showExplanation (step s e) = true
             /\ List.length (history (step s e))
                = currentIndex (step s e) + 1).
Proof.
  intros s Hreach Hplay.
  pose proof (inv_history s (Inv_reachable s Hreach) Hplay) as Hlen.
  split; [intros Hsh; rewrite Hsh in Hlen; lia | ].
  split; [intros Hsh; rewrite Hsh in Hlen; lia | ].
  intros e Hen. unfold enabled in Hen. rewrite Hplay in Hen.
  destruct e as [ | response | value | | ]; try discriminate.
  - rewrite step_change. simpl. split; intros H; contradiction H; reflexivity.
  - apply negb_true_iff in Hen. rewrite Hen in Hlen.
    destruct (string_dec (userAnswer s) EmptyString) as [Hempty | Hfull].
    { rewrite step_submit_empty by assumption.
      split; intros H; contradiction H; reflexivity. }
    destruct (nth_error (problems s) (currentIndex s)) as [p | ] eqn:Hnth.
    2: { rewrite step_submit_undefined by assumption.
         split; intros H; contradiction H; reflexivity. }
    rewrite (step_submit_graded s p Hfull Hnth). simpl. split.
    + intros H. contradiction H. reflexivity.
    + intros _. rewrite length_app. simpl. repeat split. lia.
  - rewrite Hen in Hlen.
    destruct (Z_lt_dec (Z.of_nat (currentIndex s))
                (Z.of_nat (List.length (problems s)) - 1)) as [Hmore | Hlast].
    + rewrite step_click_next_more by assumption. simpl. split.
      * intros _. repeat split. exact Hlen.
      * intros H. contradiction H. reflexivity.
    + rewrite step_click_next_last by assumption. simpl.
      split; intros H; contradiction H; reflexivity.
Qed.

(** C8, as the code has it.  In every reachable playing state whose
    problems array is not empty, the index is within the array. *)
Theorem index_valid_on_nonempty_problems :
  forall s : State,
    reachable s ->
    gameState s = playing ->
    problems s <> [] ->
    0 <= currentIndex s < List.length (problems s).
Proof.
  intros s Hreach Hplay Hne. split; [lia | ].
  exact (inv_index s (Inv_reachable s Hreach) Hplay Hne).
Qed.

(** C9, as the code has it.  When the response text is present, not empty
    and parses, [generateDailyProblems] returns the parsed array as it is,
    of whatever length, and the session plays on it. *)
Theorem generation_success_returns_parsed :
  forall (text : string) (v : list MathProblem),
    text <> EmptyString ->
    JSON_parse text = Normal v ->
    generateDailyProblems JSON_parse (Normal tt) (Normal (Some text))
    = Normal v
    /\ forall s : State,
         problems (step s (settled (Normal tt) (Normal (Some text)))) = v.
Proof.
  intros text v Hfull Hparse.
  assert (Hgen : generateDailyProblems JSON_parse (Normal tt)
                   (Normal (Some text)) = Normal v).
  { rewrite generateDailyProblems_constructed. unfold generate_try. simpl.
    apply String.eqb_neq in Hfull. rewrite Hfull, Hparse. reflexivity. }
  split; [exact Hgen | ]. intros s. rewrite (step_settled s _ _ _ Hgen).
  reflexivity.
Qed.

(** C10.  [handleSubmit] does not look at [showExplanation].  In a playing
    state with a current problem and a non-empty answer text, whether the
    explanation is shown or not, it appends the record of the current
    problem, adds one to the score when the answer is graded correct and
    shows the explanation; invoked again before any advance it appends the
    same record a second time.  What keeps this from happening is the
    render function, which offers the form only while the explanation is
    hidden. *)
Theorem submit_ignores_showExplanation :
  forall (s : State) (currentProblem : MathProblem),
    gameState s = playing ->
    userAnswer s <> EmptyString ->
    nth_error (problems s) (currentIndex s) = Some currentProblem ->
    let isCorrect := grade (parseFloat (userAnswer s)) currentProblem in
    let newItem :=
      {| HistoryItem.problem := currentProblem;
         HistoryItem.userAnswer := userAnswer s;
         HistoryItem.isCorrect := isCorrect |} in
    let s1 := step s submit in
    let s2 := step s1 submit in
    history s1 = history s ++ [newItem]
    /\ score s1 = score s + (if isCorrect then 1 else 0)
    /\ showExplanation s1 = true
    /\ history s2 = history s ++ [newItem; newItem]
    /\ score s2 = score s + (if isCorrect then 2 else 0)
    /\ enabled s submit = negb (showExplanation s)
    /\ enabled s1 submit = false.
Proof.
  intros s p Hplay Hfull Hnth isCorrect newItem s1 s2.
  assert (H1 : s1 =
    {| gameState := gameState s; problems := problems s;
       currentIndex := currentIndex s; userAnswer := userAnswer s;
       showExplanation := true; history := history s ++ [newItem];
       score := if isCorrect then score s + 1 else score s |})
    by exact (step_submit_graded s p Hfull Hnth).
  assert (H2 : s2 =
    {| gameState := gameState s; problems := problems s;
       currentIndex := currentIndex s; userAnswer := userAnswer s;
       showExplanation := true;
       history := (history s ++ [newItem]) ++ [newItem];
       score := if isCorrect then (if isCorrect then score s + 1
                                   else score s) + 1
                else (if isCorrect then score s + 1 else score s) |}).
  { unfold s2. rewrite H1.
    exact (step_submit_graded
             {| gameState := gameState s; problems := problems s;
                currentIndex := currentIndex s; userAnswer := userAnswer s;
                showExplanation := true; history := history s ++ [newItem];
                score := if isCorrect then score s + 1 else score s |}
             p Hfull Hnth). }
  rewrite H2, H1. unfold enabled. simpl. rewrite Hplay.
  rewrite <- app_assoc. simpl.
  repeat split; destruct isCorrect; lia.
Qed.

End Properties.

(** * The claims on sample sessions *)

(** The literal [0.01] is the binary64 number nearest to one hundredth. *)
Example tolerance_is_a_hundredth : tolerance = of_decimal false 1 (-2).
Proof. vm_compute. reflexivity. Qed.

Example parseFloat_samples :
  JS.parseFloat "4700" = of_Z 4700
  /\ JS.parseFloat "  -12.5e1px" = of_Z (-125)
  /\ JS.parseFloat "abc" = NaN
  /\ JS.parseFloat "." = NaN
  /\ JS.parseFloat EmptyString = NaN
  /\ JS.parseFloat "0.01" = tolerance.
Proof. vm_compute. repeat split. Qed.

Example JSON_parse_samples :
  JS.JSON_parse "[]" = Normal []
  /\ JS.JSON_parse Sample.one_problem_text = Normal Sample.one_problem
  /\ JS.JSON_parse "[" = Throw
  /\ JS.JSON_parse "Sorry, no problems today" = Throw.
Proof. vm_compute. repeat split. Qed.

(** The example run of the specification: "4700" for 47 × 99 + 47. *)
Example third_problem_graded_correct :
  let before := Sample.state_after Sample.third_typed in
  let after := Sample.state_after Sample.third_submitted in
  option_map question (nth_error (problems before) (currentIndex before))
  = Some "47 × 99 + 47"
  /\ score after = score before + 1
  /\ showExplanation after = true
  /\ map HistoryItem.isCorrect (history after) = [true; false; true].
Proof. vm_compute. repeat split. Qed.

(** The difference is rounded before it is compared: here the exact
    difference, [5764607523034234 * 2^-59 + 5192296858534828 * 2^-112], is
    below one hundredth, its binary64 value is the literal [0.01] itself,
    and the answer is graded incorrect. *)
Example grade_compares_the_rounded_difference :
  let x := JS.parseFloat "0.009999999999999998" in
  let p := {| question := EmptyString; answer := JS.parseFloat "-1e-18";
              explanation := EmptyString; type := EmptyString |} in
  x = S754_finite false 5764607523034234 (-59)
  /\ answer p = S754_finite true 5192296858534828 (-112)
  /\ (100 * (5764607523034234 * 2 ^ 53 + 5192296858534828) < 2 ^ 112)%Z
  /\ sub x (answer p) = tolerance
  /\ grade x p = false.
Proof. vm_compute. repeat split. Qed.

Example grade_samples :
  let p := {| question := "47 × 99 + 47"; answer := of_Z 4700;
              explanation := EmptyString; type := EmptyString |} in
  grade (JS.parseFloat "4700.009") p = true
  /\ grade (JS.parseFloat "4700.01") p = false
  /\ grade (JS.parseFloat "4699.995") p = true
  /\ grade (JS.parseFloat "Infinity") p = false
  /\ grade (JS.parseFloat "47e2") p = true.
Proof. vm_compute. repeat split. Qed.

(** ** Instances of the theorems *)

Lemma score_counts_correct_entries_witness :
  let s := Sample.state_after Sample.finished in
  App.reachable JS.parseFloat JS.JSON_parse s
  /\ score s = correct_count (history s)
  /\ score s = 2.
Proof.
  intros s.
  assert (Hreach : App.reachable JS.parseFloat JS.JSON_parse s)
    by (exists Sample.finished; vm_compute; reflexivity).
  split; [exact Hreach | ]. split; [ | vm_compute; reflexivity].
  exact (score_counts_correct_entries JS.parseFloat JS.JSON_parse s Hreach).
Defined.

Lemma generation_failure_falls_back_witness :
  let response := Normal (Some "Sorry, no problems today") in
  generation_fails JS.JSON_parse response
  /\ generateDailyProblems JS.JSON_parse (Normal tt) response
     = Normal fallback.
Proof.
  intros response.
  assert (Hfail : generation_fails JS.JSON_parse response)
    by (right; vm_compute; reflexivity).
  split; [exact Hfail | ].
  exact (proj1 (generation_failure_falls_back
                  JS.parseFloat JS.JSON_parse response Hfail)).
Defined.

Lemma submit_empty_is_noop_witness :
  let s := Sample.state_after Sample.started in
  gameState s = playing
  /\ userAnswer s = EmptyString
  /\ Sample.step s submit = s.
Proof.
  intros s.
  assert (Hplay : gameState s = playing) by (vm_compute; reflexivity).
  assert (Hempty : userAnswer s = EmptyString) by (vm_compute; reflexivity).
  split; [exact Hplay | ]. split; [exact Hempty | ].
  exact (proj1 (submit_empty_is_noop
                  JS.parseFloat JS.JSON_parse s Hplay Hempty)).
Defined.

Lemma advance_moves_on_or_ends_witness :
  let s := Sample.state_after Sample.first_submitted in
  let t := Sample.state_after Sample.third_submitted in
  (gameState s = playing /\ showExplanation s = true
   /\ currentIndex (Sample.step s click_next) = 1
   /\ showExplanation (Sample.step s click_next) = false)
  /\ (gameState t = playing /\ showExplanation t = true
      /\ gameState (Sample.step t click_next) = summary
      /\ history (Sample.step t click_next) = history t).
Proof.
  intros s t.
  assert (Hs : gameState s = playing) by (vm_compute; reflexivity).
  assert (Hs' : showExplanation s = true) by (vm_compute; reflexivity).
  assert (Ht : gameState t = playing) by (vm_compute; reflexivity).
  assert (Ht' : showExplanation t = true) by (vm_compute; reflexivity).
  destruct (advance_moves_on_or_ends JS.parseFloat JS.JSON_parse s Hs Hs')
    as [Hmore _].
  destruct (advance_moves_on_or_ends JS.parseFloat JS.JSON_parse t Ht Ht')
    as [_ Hlast].
  split.
  - split; [exact Hs | ]. split; [exact Hs' | ].
    unfold Sample.step. rewrite Hmore by (vm_compute; reflexivity).
    split; reflexivity.
  - split; [exact Ht | ]. split; [exact Ht' | ].
    destruct Hlast as (Hsum & _ & _ & Hhist);
      [vm_compute; discriminate | ].
    split; [exact Hsum | exact Hhist].
Defined.

Lemma start_resets_session_witness :
  let s := Sample.state_after Sample.finished in
  gameState s = summary
  /\ enabled s click_start = true
  /\ generateDailyProblems JS.JSON_parse (Normal tt) Throw = Normal fallback
  /\ Sample.step (Sample.step s click_start) (settled (Normal tt) Throw)
     = {| gameState := playing; problems := fallback; currentIndex := 0;
          userAnswer := EmptyString; showExplanation := false;
          history := []; score := 0 |}.
Proof.
  intros s.
  assert (Hsum : gameState s = summary) by (vm_compute; reflexivity).
  assert (Hgen : generateDailyProblems JS.JSON_parse (Normal tt) Throw
                 = Normal fallback) by reflexivity.
  destruct (start_resets_session JS.parseFloat JS.JSON_parse
              s (Normal tt) Throw fallback Hgen)
    as (Hoffer & _ & _ & Hreset).
  split; [exact Hsum | ]. split; [exact (Hoffer (or_intror Hsum)) | ].
  split; [exact Hgen | exact Hreset].
Defined.

Lemma history_length_tracks_index_witness :
  let s := Sample.state_after Sample.third_typed in
  App.reachable JS.parseFloat JS.JSON_parse s
  /\ gameState s = playing
  /\ showExplanation s = false
  /\ List.length (history s) = currentIndex s.
Proof.
  intros s.
  assert (Hreach : App.reachable JS.parseFloat JS.JSON_parse s)
    by (exists Sample.third_typed; vm_compute; reflexivity).
  assert (Hplay : gameState s = playing) by (vm_compute; reflexivity).
  assert (Hhidden : showExplanation s = false) by (vm_compute; reflexivity).
  split; [exact Hreach | ]. split; [exact Hplay | ]. split; [exact Hhidden | ].
  exact (proj1 (history_length_tracks_index
                  JS.parseFloat JS.JSON_parse s Hreach Hplay) Hhidden).
Defined.

Lemma index_valid_on_nonempty_problems_witness :
  let s := Sample.state_after Sample.third_submitted in
  App.reachable JS.parseFloat JS.JSON_parse s
  /\ gameState s = playing
  /\ problems s <> []
  /\ 0 <= currentIndex s < List.length (problems s).
Proof.
  intros s.
  assert (Hreach : App.reachable JS.parseFloat JS.JSON_parse s)
    by (exists Sample.third_submitted; vm_compute; reflexivity).
  assert (Hplay : gameState s = playing) by (vm_compute; reflexivity).
  assert (Hne : problems s <> []) by (vm_compute; discriminate).
  split; [exact Hreach | ]. split; [exact Hplay | ]. split; [exact Hne | ].
  exact (index_valid_on_nonempty_problems
           JS.parseFloat JS.JSON_parse s Hreach Hplay Hne).
Defined.

Lemma generation_success_returns_parsed_witness :
  Sample.one_problem_text <> EmptyString
  /\ JS.JSON_parse Sample.one_problem_text = Normal Sample.one_problem
  /\ generateDailyProblems JS.JSON_parse (Normal tt)
       (Normal (Some Sample.one_problem_text))
     = Normal Sample.one_problem.
Proof.
  assert (Hfull : Sample.one_problem_text <> EmptyString)
    by (vm_compute; discriminate).
  assert (Hparse : JS.JSON_parse Sample.one_problem_text
                   = Normal Sample.one_problem)
    by (vm_compute; reflexivity).
  split; [exact Hfull | ]. split; [exact Hparse | ].
  exact (proj1 (generation_success_returns_parsed
                  JS.parseFloat JS.JSON_parse
                  Sample.one_problem_text Sample.one_problem Hfull Hparse)).
Defined.

Lemma submit_ignores_showExplanation_witness :
  let s := Sample.state_after Sample.first_submitted in
  let p := {| question := "25 × 44"; answer := of_Z 1100;
              explanation := "把44拆分成4×11，然后25×4=100，100×11=1100";
              type := "乘法结合律" |} in
  gameState s = playing
  /\ showExplanation s = true
  /\ userAnswer s <> EmptyString
  /\ nth_error (problems s) (currentIndex s) = Some p
  /\ List.length (history s) = 1
  /\ List.length (history (Sample.step s submit)) = 2
  /\ score (Sample.step s submit) = 2.
Proof.
  intros s p.
  assert (Hplay : gameState s = playing) by (vm_compute; reflexivity).
  assert (Hfull : userAnswer s <> EmptyString) by (vm_compute; discriminate).
  assert (Hnth : nth_error (problems s) (currentIndex s) = Some p)
    by (vm_compute; reflexivity).
  destruct (submit_ignores_showExplanation
              JS.parseFloat JS.JSON_parse s p Hplay Hfull Hnth)
    as (Hhist & Hscore & _).
  split; [exact Hplay | ]. split; [vm_compute; reflexivity | ].
  split; [exact Hfull | ]. split; [exact Hnth | ].
  split; [vm_compute; reflexivity | ].
  unfold Sample.step. rewrite Hhist, Hscore.
  split; vm_compute; reflexivity.
Defined.

(** ** Where two claims fail *)

(** C8 as stated fails: the service may answer the empty array, which
    parses; the session then plays at index 0 of an array without elements. *)
Lemma index_invalid_on_empty_array :
  let s := Sample.state_after Sample.empty_array in
  App.reachable JS.parseFloat JS.JSON_parse s
  /\ gameState s = playing
  /\ ~ (0 <= currentIndex s < List.length (problems s)).
Proof.
  intros s. split; [ | split].
  - exists Sample.empty_array. vm_compute. reflexivity.
  - vm_compute. reflexivity.
  - vm_compute. intros [_ H]. inversion H.
Qed.

(** C9 as stated fails: on a response text that is present and parses, the
    array returned is the parsed one, here of no element, there of one. *)
Lemma generation_success_not_ten :
  JS.JSON_parse "[]" = Normal []
  /\ generateDailyProblems JS.JSON_parse (Normal tt) (Normal (Some "[]"))
     = Normal []
  /\ List.length (@nil MathProblem) <> 10
  /\ JS.JSON_parse Sample.one_problem_text = Normal Sample.one_problem
  /\ generateDailyProblems JS.JSON_parse (Normal tt)
       (Normal (Some Sample.one_problem_text))
     = Normal Sample.one_problem
  /\ List.length Sample.one_problem <> 10.
Proof. vm_compute. repeat split; discriminate. Qed.

(** * Beyond the claims: the records, the page and whole quizzes *)

Section Session.

Variable parseFloat : string -> number.
Variable JSON_parse : string -> Completion (list MathProblem).

Local Abbreviation step := (App.step parseFloat JSON_parse).
Local Abbreviation run := (App.run parseFloat JSON_parse).
Local Abbreviation reachable := (App.reachable parseFloat JSON_parse).
Local Abbreviation Recorded := (App.Recorded parseFloat).
Local Abbreviation record_of := (App.record_of parseFloat).

Lemma firstn_snoc_nth_error {A : Type} (l : list A) :
  forall (n : nat) (x : A),
    nth_error l n = Some x -> firstn (S n) l = firstn n l ++ [x].
Proof.
  induction l as [ | a l IH]; intros [ | n] x H; simpl in *;
    try discriminate.
  - injection H as ->. destruct l; reflexivity.
  - f_equal. apply IH. exact H.
Qed.

Lemma Recorded_initial : Recorded initial.
Proof.
  split; simpl; try discriminate; [reflexivity | constructor].
Qed.

Lemma Recorded_step (s : State) (e : Event) :
  Inv s -> Recorded s -> enabled s e = true -> Recorded (step s e).
Proof.
  intros [_ Hlen _] [Hprob Hgraded Hrev Hsum] Hen. unfold enabled in Hen.
  destruct e as [ | ai response | value | | ].
  - rewrite step_click_start. split; simpl; try discriminate; assumption.
  - destruct (generateDailyProblems JSON_parse ai response)
      as [newProblems | ] eqn:Hgen.
    + rewrite (step_settled _ _ s ai response newProblems Hgen).
      split; simpl; try discriminate; [reflexivity | constructor].
    + rewrite (step_settled_thrown _ _ s ai response Hgen).
      split; assumption.
  - destruct (gameState s) eqn:Hg; try discriminate.
    apply negb_true_iff in Hen. rewrite step_change.
    split; simpl; try assumption; intros; congruence.
  - destruct (gameState s) eqn:Hg; try discriminate.
    apply negb_true_iff in Hen.
    destruct (string_dec (userAnswer s) EmptyString) as [Hempty | Hfull].
    { rewrite step_submit_empty by assumption.
      split; rewrite ?Hg; assumption. }
    destruct (nth_error (problems s) (currentIndex s)) as [p | ] eqn:Hnth.
    2: { rewrite step_submit_undefined by assumption.
         split; rewrite ?Hg; assumption. }
    rewrite (step_submit_graded _ _ s p Hfull Hnth).
    specialize (Hlen eq_refl). rewrite Hen, Nat.add_0_r in Hlen.
    split; simpl.
    + rewrite map_app, length_app, Hprob, Hlen. simpl.
      rewrite Nat.add_1_r. symmetry.
      apply firstn_snoc_nth_error. exact Hnth.
    + apply Forall_app. split; [exact Hgraded | ].
      constructor; [ | constructor]. simpl. split; [exact Hfull | reflexivity].
    + intros _ _. exists p, (history s). unfold currentProblem. simpl.
      split; [exact Hnth | ]. split; [exact Hfull | reflexivity].
    + intros; congruence.
  - destruct (gameState s) eqn:Hg; try discriminate.
    destruct (Z_lt_dec (Z.of_nat (currentIndex s))
                (Z.of_nat (List.length (problems s)) - 1)) as [Hmore | Hlast].
    + rewrite step_click_next_more by assumption.
      split; simpl; try assumption; intros; congruence.
    + rewrite step_click_next_last by assumption.
      split; simpl; try assumption; try discriminate.
      intros _. specialize (Hlen eq_refl). rewrite Hen in Hlen.
      destruct (Hrev eq_refl Hen) as (p & before & Hcur & _ & _).
      unfold currentProblem in Hcur.
      assert (currentIndex s < List.length (problems s))
        by (apply nth_error_Some; rewrite Hcur; discriminate).
      lia.
Qed.

Lemma Inv_Recorded_run (es : list Event) :
  forall s s',
    Inv s -> Recorded s -> run s es = Some s' -> Inv s' /\ Recorded s'.
Proof.
  induction es as [ | e es IH]; simpl; intros s s' HI HR Hrun.
  - injection Hrun as <-. split; assumption.
  - destruct (enabled s e) eqn:Hen; [ | discriminate].
    eapply IH; [ | | exact Hrun].
    + apply Inv_step; assumption.
    + apply Recorded_step; assumption.
Qed.

Lemma Recorded_reachable (s : State) : reachable s -> Recorded s.
Proof.
  intros [es Hrun].
  exact (proj2 (Inv_Recorded_run es initial s Inv_initial
                  Recorded_initial Hrun)).
Qed.

(** ** The history against the problems *)

(** X1.  The records of the history are those of the first problems of the
    array, in order; on the summary screen they are those of all the
    problems: each problem is listed once. *)
Theorem history_lists_the_problems_in_order :
  forall s : State,
    reachable s ->
    map HistoryItem.problem (history s)
    = firstn (List.length (history s)) (problems s)
    /\ (gameState s = summary ->
        map HistoryItem.problem (history s) = problems s).
Proof.
  intros s Hreach. destruct (Recorded_reachable s Hreach) as [Hprob _ _ Hsum].
  split; [exact Hprob | ]. intros Hg.
  rewrite Hprob, (Hsum Hg). apply firstn_all.
Qed.

(** X2.  No record holds an empty answer text, and the flag of every record is
    the grade of its own text against its own problem. *)
Theorem every_record_is_a_graded_answer :
  forall (s : State) (item : HistoryItem.t),
    reachable s ->
    In item (history s) ->
    HistoryItem.userAnswer item <> EmptyString
    /\ HistoryItem.isCorrect item
       = grade (parseFloat (HistoryItem.userAnswer item))
               (HistoryItem.problem item).
Proof.
  intros s item Hreach Hin.
  pose proof (rec_graded _ s (Recorded_reachable s Hreach)) as Hall.
  rewrite Forall_forall in Hall. destruct (Hall item Hin) as [Hfull Hitem].
  split; [exact Hfull | ]. rewrite Hitem at 1. reflexivity.
Qed.

Lemma score_le_history_le_problems (s : State) :
  reachable s ->
  score s <= List.length (history s) <= List.length (problems s).
Proof.
  intros Hreach. split.
  - rewrite (inv_score s (Inv_reachable parseFloat JSON_parse s Hreach)).
    unfold correct_count. apply filter_length_le.
  - pose proof (rec_problems _ s (Recorded_reachable s Hreach)) as Hprob.
    apply (f_equal (@List.length MathProblem)) in Hprob.
    rewrite length_map, length_firstn in Hprob. lia.
Qed.

Lemma perfect_score_iff (s : State) :
  reachable s ->
  gameState s = summary ->
  (score s = List.length (problems s) <->
   Forall (fun item => HistoryItem.isCorrect item = true) (history s)).
Proof.
  intros Hreach Hsum.
  rewrite <- (rec_summary _ s (Recorded_reachable s Hreach) Hsum).
  rewrite (inv_score s (Inv_reachable parseFloat JSON_parse s Hreach)).
  unfold correct_count. clear. induction (history s) as [ | item h IH]; simpl.
  - split; [constructor | reflexivity].
  - destruct (HistoryItem.isCorrect item) eqn:Hc; simpl.
    + rewrite Nat.succ_inj_wd. rewrite IH. split.
      * intros H. constructor; assumption.
      * intros H. inversion H. assumption.
    + split.
      * intros H. pose proof (filter_length_le HistoryItem.isCorrect h). lia.
      * intros H. inversion H. congruence.
Qed.

(** X3.  The score shown as "score / problems.length" never exceeds the number
    of problems; on the summary screen it is the perfect score exactly
    when every record is flagged correct. *)
Theorem score_is_at_most_the_number_of_problems :
  forall s : State,
    reachable s ->
    score s <= List.length (problems s)
    /\ (gameState s = summary ->
        (score s = List.length (problems s) <->
         Forall (fun item => HistoryItem.isCorrect item = true) (history s))).
Proof.
  intros s Hreach.
  pose proof (score_le_history_le_problems s Hreach) as [H1 H2].
  split; [lia | ]. intros Hsum. exact (perfect_score_iff s Hreach Hsum).
Qed.

(** ** The page against the handlers *)

(** X4.  While the explanation is shown, the verdict the panel computes from the
    answer text is the flag of the last record, which is the record of the
    current problem and of that text. *)
Theorem panel_verdict_is_the_recorded_flag :
  forall s : State,
    reachable s ->
    gameState s = playing ->
    showExplanation s = true ->
    exists before item,
      history s = before ++ [item]
      /\ currentProblem s = Some (HistoryItem.problem item)
      /\ HistoryItem.userAnswer item = userAnswer s
      /\ panel_verdict parseFloat s = Some (HistoryItem.isCorrect item).
Proof.
  intros s Hreach Hplay Hshown.
  destruct (rec_revealed _ s (Recorded_reachable s Hreach) Hplay Hshown)
    as (p & before & Hcur & _ & Hhist).
  exists before, (record_of p (userAnswer s)).
  split; [exact Hhist | ]. split; [exact Hcur | ]. split; [reflexivity | ].
  unfold panel_verdict. rewrite Hcur. reflexivity.
Qed.

(** X5.  While the explanation is shown, the button reads "查看成绩" exactly when
    pressing it ends the quiz, and "下一道题" exactly when the quiz goes on. *)
Theorem next_label_tells_what_next_does :
  forall s : State,
    reachable s ->
    gameState s = playing ->
    showExplanation s = true ->
    (next_label s = "查看成绩 🏁" <->
     gameState (step s click_next) = summary)
    /\ (next_label s = "下一道题 ➡️" <->
        gameState (step s click_next) = playing).
Proof.
  intros s Hreach Hplay Hshown.
  destruct (rec_revealed _ s (Recorded_reachable s Hreach) Hplay Hshown)
    as (p & before & Hcur & _ & _).
  unfold currentProblem in Hcur.
  assert (Hin : currentIndex s < List.length (problems s))
    by (apply nth_error_Some; rewrite Hcur; discriminate).
  unfold next_label.
  destruct (Z_lt_dec (Z.of_nat (currentIndex s))
              (Z.of_nat (List.length (problems s)) - 1)) as [Hmore | Hlast].
  - rewrite (step_click_next_more _ _ s Hmore). simpl.
    replace (Z.of_nat (currentIndex s)
             =? Z.of_nat (List.length (problems s)) - 1)%Z with false
      by (symmetry; apply Z.eqb_neq; lia).
    rewrite Hplay. split; split; intros H; try reflexivity; discriminate H.
  - rewrite (step_click_next_last _ _ s Hlast). simpl.
    replace (Z.of_nat (currentIndex s)
             =? Z.of_nat (List.length (problems s)) - 1)%Z with true
      by (symmetry; apply Z.eqb_eq; lia).
    split; split; intros H; try reflexivity; discriminate H.
Qed.

(** X6.  While the form is shown on a non-empty array, the submit button is
    disabled exactly when submitting would change nothing. *)
Theorem submit_disabled_iff_submit_is_noop :
  forall s : State,
    reachable s ->
    gameState s = playing ->
    showExplanation s = false ->
    problems s <> [] ->
    (submit_disabled s = true <-> step s submit = s).
Proof.
  intros s Hreach Hplay Hhidden Hne. unfold submit_disabled. split.
  - intros H. apply String.eqb_eq in H. apply step_submit_empty. exact H.
  - intros Hsame.
    destruct (string_dec (userAnswer s) EmptyString) as [Hempty | Hfull].
    { apply String.eqb_eq. exact Hempty. }
    pose proof (inv_index s (Inv_reachable parseFloat JSON_parse s Hreach)
                  Hplay Hne) as Hin.
    destruct (nth_error (problems s) (currentIndex s)) as [p | ] eqn:Hnth.
    2: { apply nth_error_None in Hnth. lia. }
    pose proof (step_submit_graded parseFloat JSON_parse s p Hfull Hnth)
      as Hstep.
    simpl in Hstep. rewrite Hsame in Hstep.
    apply (f_equal showExplanation) in Hstep. simpl in Hstep. congruence.
Qed.

(** X7.  On the summary screen of a quiz of fewer than eight problems the
    sentence is the lowest of the three, whatever the answers were: the
    thresholds are 10 and 8, not shares of the number of problems. *)
Theorem short_quiz_gets_the_lowest_sentence :
  forall s : State,
    reachable s ->
    gameState s = summary ->
    List.length (problems s) < 8 ->
    summary_message (score s) = "干得不错！继续加油哦！💪".
Proof.
  intros s Hreach _ Hshort.
  pose proof (score_le_history_le_problems s Hreach) as [H1 H2].
  unfold summary_message.
  replace (score s =? 10)%nat with false
    by (symmetry; apply Nat.eqb_neq; lia).
  replace (8 <=? score s)%nat with false
    by (symmetry; apply Nat.leb_gt; lia).
  reflexivity.
Qed.

(** X8.  A perfect score earns the top sentence only on a quiz of ten
    problems: with every answer correct, "太棒了！你是巧算大师！" is shown
    exactly when the array has ten elements. *)
Theorem perfect_score_earns_top_sentence_on_ten :
  forall s : State,
    reachable s ->
    gameState s = summary ->
    Forall (fun item => HistoryItem.isCorrect item = true) (history s) ->
    (summary_message (score s) = "太棒了！你是巧算大师！🏆" <->
     List.length (problems s) = 10).
Proof.
  intros s Hreach Hsum Hall.
  apply (perfect_score_iff s Hreach Hsum) in Hall. rewrite <- Hall.
  unfold summary_message.
  destruct (Nat.eqb_spec (score s) 10) as [Heq | Hne].
  - split; [intros _; exact Heq | reflexivity].
  - split; [ | intros H; contradiction].
    destruct (8 <=? score s)%nat; intros H; discriminate H.
Qed.

(** ** What a quiz never undoes *)

Lemma step_keeps_the_past (s : State) (e : Event) :
  (forall ai response, e <> settled ai response) ->
  problems (step s e) = problems s
  /\ (exists more, history (step s e) = history s ++ more)
  /\ currentIndex s <= currentIndex (step s e)
  /\ score s <= score (step s e).
Proof.
  intros Hno. destruct e as [ | ai response | value | | ].
  - rewrite step_click_start. simpl. repeat split; try lia.
    exists []. symmetry. apply app_nil_r.
  - contradiction (Hno ai response). reflexivity.
  - rewrite step_change. simpl. repeat split; try lia.
    exists []. symmetry. apply app_nil_r.
  - destruct (string_dec (userAnswer s) EmptyString) as [Hempty | Hfull].
    { rewrite step_submit_empty by assumption. repeat split; try lia.
      exists []. symmetry. apply app_nil_r. }
    destruct (nth_error (problems s) (currentIndex s)) as [p | ] eqn:Hnth.
    2: { rewrite step_submit_undefined by assumption. repeat split; try lia.
         exists []. symmetry. apply app_nil_r. }
    rewrite (step_submit_graded parseFloat JSON_parse s p Hfull Hnth). simpl.
    repeat split; try lia.
    + eexists. reflexivity.
    + destruct (grade (parseFloat (userAnswer s)) p); lia.
  - destruct (Z_lt_dec (Z.of_nat (currentIndex s))
                (Z.of_nat (List.length (problems s)) - 1)) as [Hmore | Hlast].
    + rewrite step_click_next_more by assumption. simpl.
      repeat split; try lia. exists []. symmetry. apply app_nil_r.
    + rewrite step_click_next_last by assumption. simpl.
      repeat split; try lia. exists []. symmetry. apply app_nil_r.
Qed.

(** X9.  Between two fetches nothing is taken back: along any events other
    than a settled call, the problems stay the same, the history only
    grows at its end (no record is changed or removed), and neither the
    index nor the score goes down. *)
Theorem history_is_append_only :
  forall (es : list Event) (s s' : State),
    run s es = Some s' ->
    (forall ai response, ~ In (settled ai response) es) ->
    problems s' = problems s
    /\ (exists more, history s' = history s ++ more)
    /\ currentIndex s <= currentIndex s'
    /\ score s <= score s'.
Proof.
  induction es as [ | e es IH]; simpl; intros s s' Hrun Hno.
  - injection Hrun as <-. repeat split; try lia.
    exists []. symmetry. apply app_nil_r.
  - destruct (enabled s e); [ | discriminate].
    destruct (step_keeps_the_past s e) as (Hp & [more1 Hh] & Hi & Hs).
    { intros ai response ->. apply (Hno ai response). left. reflexivity. }
    destruct (IH _ _ Hrun) as (Hp' & [more2 Hh'] & Hi' & Hs').
    { intros ai response Hin. apply (Hno ai response). right. exact Hin. }
    split; [congruence | ]. split; [ | lia].
    exists (more1 ++ more2). rewrite Hh', Hh, app_assoc. reflexivity.
Qed.

(** ** Where a session cannot go on *)

Lemma run_app (es1 es2 : list Event) :
  forall s : State,
    run s (es1 ++ es2)
    = match run s es1 with
      | Some s1 => run s1 es2
      | None => None
      end.
Proof.
  induction es1 as [ | e es1 IH]; intros s; simpl; [reflexivity | ].
  destruct (enabled s e); [apply IH | reflexivity].
Qed.

(** X11.  While loading the page offers the user nothing: only the pending call
    can move the session on.  So a run from a loading state in which every
    call finds the client constructor throwing consists of such calls
    only, and leaves the session where it was: on the loading screen, with
    the state it had. *)
Theorem loading_waits_for_the_call :
  forall (s : State) (es : list Event) (s' : State),
    gameState s = loading ->
    run s es = Some s' ->
    (forall ai response, In (settled ai response) es -> ai = Throw) ->
    s' = s
    /\ forall e, In e es -> exists response, e = settled Throw response.
Proof.
  intros s es. revert s.
  induction es as [ | e es IH]; simpl; intros s s' Hload Hrun Hall.
  - injection Hrun as <-. split; [reflexivity | intros e []].
  - destruct (enabled s e) eqn:Hen; [ | discriminate].
    unfold enabled in Hen. rewrite Hload in Hen.
    destruct e as [ | ai response | value | | ]; try discriminate.
    rewrite (Hall ai response (or_introl eq_refl)) in *.
    assert (Hsame : step s (settled Throw response) = s) by reflexivity.
    rewrite Hsame in Hrun.
    destruct (IH s s' Hload Hrun) as [H1 H2].
    { intros ai' r Hin. apply (Hall ai' r). right. exact Hin. }
    split; [exact H1 | ].
    intros e [<- | Hin]; [exists response; reflexivity | apply H2; exact Hin].
Qed.

(** ** The problem source, read backwards *)

(** X12.  [generateDailyProblems] throws only when the client constructor does;
    and an array it returns is the fallback unless the response text was
    present, not empty, and parsed to that very array. *)
Theorem generated_array_is_parsed_or_fallback :
  forall (ai : Completion unit) (response : Completion (option string)),
    (generateDailyProblems JSON_parse ai response = Throw <-> ai = Throw)
    /\ forall v : list MathProblem,
         generateDailyProblems JSON_parse ai response = Normal v ->
         v = fallback
         \/ exists text,
              response = Normal (Some text)
              /\ text <> EmptyString
              /\ JSON_parse text = Normal v.
Proof.
  intros ai response. split.
  - destruct ai as [[] | ]; simpl; split; intros H;
      try reflexivity; discriminate H.
  - intros v H. destruct ai as [[] | ]; [ | discriminate H].
    rewrite generateDailyProblems_constructed in H. injection H as <-.
    unfold generate_try.
    destruct response as [[text | ] | ]; simpl; try (left; reflexivity).
    destruct (String.eqb text EmptyString) eqn:Heq; [left; reflexivity | ].
    destruct (JSON_parse text) as [v | ] eqn:Hparse; [ | left; reflexivity].
    right. exists text. apply String.eqb_neq in Heq. simpl. auto.
Qed.

(** ** Whole quizzes *)

Lemma run_answer_events (s : State) (p : MathProblem) (text : string) :
  gameState s = playing ->
  showExplanation s = false ->
  text <> EmptyString ->
  nth_error (problems s) (currentIndex s) = Some p ->
  run s (answer_events text)
  = Some (if (Z.of_nat (currentIndex s)
              <? Z.of_nat (List.length (problems s)) - 1)%Z
          then {| gameState := playing; problems := problems s;
                  currentIndex := currentIndex s + 1;
                  userAnswer := EmptyString; showExplanation := false;
                  history := history s ++ [record_of p text];
                  score := score s + correct_count [record_of p text] |}
          else {| gameState := summary; problems := problems s;
                  currentIndex := currentIndex s;
                  userAnswer := text; showExplanation := true;
                  history := history s ++ [record_of p text];
                  score := score s + correct_count [record_of p text] |}).
Proof.
  intros Hplay Hhidden Hfull Hnth.
  destruct s as [g ps i u sh h sc]. simpl in *. subst g sh.
  unfold answer_events. simpl. rewrite step_change. simpl.
  rewrite (step_submit_graded parseFloat JSON_parse
             {| gameState := playing; problems := ps; currentIndex := i;
                userAnswer := text; showExplanation := false;
                history := h; score := sc |} p Hfull Hnth).
  simpl. unfold App.step, handler, handleNext. simpl.
  unfold correct_count, App.record_of. simpl.
  destruct (Z.of_nat i <? Z.of_nat (List.length ps) - 1)%Z;
    destruct (grade (parseFloat text) p); simpl;
    rewrite ?Nat.add_0_r; reflexivity.
Qed.

Lemma last_cons_default {A : Type} (l : list A) :
  forall a d d' : A, last (a :: l) d = last (a :: l) d'.
Proof.
  induction l as [ | b l IH]; intros a d d'; [reflexivity | ].
  exact (IH b d d').
Qed.

Lemma correct_count_app_list (h1 h2 : list HistoryItem.t) :
  correct_count (h1 ++ h2) = correct_count h1 + correct_count h2.
Proof. unfold correct_count. rewrite filter_app, length_app. reflexivity. Qed.

Lemma run_quiz_events :
  forall (rest done : list MathProblem) (texts : list string)
         (u : string) (h : list HistoryItem.t) (sc : nat),
    rest <> [] ->
    List.length texts = List.length rest ->
    Forall (fun text => text <> EmptyString) texts ->
    run {| gameState := playing; problems := done ++ rest;
           currentIndex := List.length done; userAnswer := u;
           showExplanation := false; history := h; score := sc |}
        (quiz_events texts)
    = Some {| gameState := summary; problems := done ++ rest;
              currentIndex := List.length done + List.length rest - 1;
              userAnswer := last texts u; showExplanation := true;
              history := h ++ records parseFloat rest texts;
              score := sc + correct_count (records parseFloat rest texts) |}.
Proof.
  induction rest as [ | p rest IH]; intros done texts u h sc Hne Hlen Hfull;
    [contradiction | ].
  destruct texts as [ | text texts]; [discriminate | ].
  simpl in Hlen. injection Hlen as Hlen. inversion Hfull as [ | ? ? Ht Hts].
  subst.
  change (quiz_events (text :: texts))
    with (answer_events text ++ quiz_events texts).
  rewrite run_app.
  rewrite (run_answer_events _ p text);
    [ | reflexivity | reflexivity | exact Ht
      | simpl; rewrite nth_error_app2, Nat.sub_diag by lia; reflexivity].
  simpl. rewrite length_app. simpl.
  match goal with
  | |- context [(?a <? ?b)%Z] => destruct (Z.ltb_spec a b) as [Hlt | Hge]
  end.
  - destruct rest as [ | q rest]; [simpl in Hlt; lia | ].
    specialize (IH (done ++ [p]) texts EmptyString
                  (h ++ [record_of p text])
                  (sc + correct_count [record_of p text])).
    rewrite <- app_assoc, length_app in IH. simpl in IH.
    destruct texts as [ | t texts]; [discriminate | ].
    rewrite IH; [ | discriminate | exact Hlen | exact Hts].
    f_equal. f_equal.
    + simpl. lia.
    + exact (last_cons_default texts t EmptyString u).
    + rewrite <- app_assoc. reflexivity.
    + change (records parseFloat (p :: q :: rest) (text :: t :: texts))
        with ([record_of p text]
              ++ records parseFloat (q :: rest) (t :: texts)).
      rewrite correct_count_app_list. lia.
  - destruct rest as [ | q rest]; [ | simpl in Hge; lia].
    destruct texts; [ | discriminate]. simpl.
    f_equal. f_equal. lia.
Qed.

(** X13.  A quiz can always be played to its end.  From the intro or the summary
    screen, once the call has resolved with a non-empty array, answering
    the problems one after the other with non-empty texts is possible at
    every step and ends on the summary screen, with one record per problem
    in order, each with the text given, and with the score counting the
    correct ones. *)
Theorem quiz_runs_to_the_summary :
  forall (s : State) (ai : Completion unit)
         (response : Completion (option string))
         (ps : list MathProblem) (texts : list string),
    gameState s = intro \/ gameState s = summary ->
    generateDailyProblems JSON_parse ai response = Normal ps ->
    ps <> [] ->
    List.length texts = List.length ps ->
    Forall (fun text => text <> EmptyString) texts ->
    exists s' : State,
      run s (click_start :: settled ai response :: quiz_events texts)
      = Some s'
      /\ gameState s' = summary
      /\ problems s' = ps
      /\ history s' = records parseFloat ps texts
      /\ score s' = correct_count (records parseFloat ps texts).
Proof.
  intros s ai response ps texts Hscreen Hgen Hne Hlen Hfull.
  eexists. split.
  - simpl.
    replace (enabled s click_start) with true
      by (unfold enabled; destruct Hscreen as [-> | ->]; reflexivity).
    rewrite step_click_start. simpl.
    rewrite (step_settled parseFloat JSON_parse _ ai response ps Hgen).
    exact (run_quiz_events ps [] texts EmptyString [] 0 Hne Hlen Hfull).
  - simpl. repeat split.
Qed.

End Session.

(** * Grading, number by number *)

(** ** Which numbers can be graded correct *)

(** X14.  Only finite numbers are graded correct: when the answer text parses to
    NaN or to an infinity, or when the problem's answer is NaN or an
    infinity, the grade is false. *)
Theorem graded_correct_only_when_finite :
  forall (numAnswer : number) (p : MathProblem),
    grade numAnswer p = true ->
    finite numAnswer = true /\ finite (answer p) = true.
Proof.
  intros x p. unfold grade. destruct (answer p) as [sy | sy | | sy my ey];
    destruct x as [sx | sx | | sx mx ex]; simpl;
    try (intros _; split; reflexivity);
    try discriminate;
    try (destruct sx; discriminate);
    try (destruct sy; discriminate);
    destruct sx, sy; discriminate.
Qed.

Lemma grade_same_number (x : number) (p : MathProblem) :
  answer p = x -> (grade x p = true <-> finite x = true).
Proof.
  intros Hans. unfold grade. rewrite Hans.
  destruct x as [sx | sx | | sx mx ex]; simpl.
  - destruct sx; split; reflexivity.
  - destruct sx; split; discriminate.
  - split; discriminate.
  - unfold sub, SFsub. rewrite Z.sub_diag. split; reflexivity.
Qed.

(** X15.  A text that parses to the very number the problem has as its answer is
    graded correct when that number is finite, and only then. *)
Theorem exact_answer_is_graded_correct :
  forall (numAnswer : number) (p : MathProblem),
    answer p = numAnswer ->
    (grade numAnswer p = true <-> finite numAnswer = true).
Proof. intros x p Hans. exact (grade_same_number x p Hans). Qed.

(** ** Integers

    The prompt asks for integer answers.  On integers below 2^53 in
    absolute value, which binary64 holds without rounding, the tolerance
    plays no part: an integer answer is graded correct exactly when it is
    the right one. *)

Section IntegerGrading.

Local Open Scope Z_scope.

Lemma digits2_pos_bounds (p : positive) :
  2 ^ (Zpos (digits2_pos p) - 1) <= Zpos p < 2 ^ Zpos (digits2_pos p).
Proof.
  induction p as [p IH | p IH | ]; simpl digits2_pos.
  - rewrite Pos2Z.inj_succ. replace (Z.succ (Zpos (digits2_pos p)) - 1)
      with (Z.succ (Zpos (digits2_pos p) - 1)) by lia.
    rewrite !Z.pow_succ_r by lia. lia.
  - rewrite Pos2Z.inj_succ. replace (Z.succ (Zpos (digits2_pos p)) - 1)
      with (Z.succ (Zpos (digits2_pos p) - 1)) by lia.
    rewrite !Z.pow_succ_r by lia. lia.
  - simpl. lia.
Qed.

Lemma iter_xO_mul (m d : positive) :
  Zpos (Pos.iter xO m d) = Zpos m * 2 ^ Zpos d.
Proof.
  induction d as [ | d IH] using Pos.peano_ind.
  - simpl. lia.
  - rewrite Pos.iter_succ, Pos2Z.inj_succ, Z.pow_succ_r by lia.
    rewrite Pos2Z.inj_xO, IH. lia.
Qed.

Lemma iter_xO_digits (m d : positive) :
  Zpos (digits2_pos (Pos.iter xO m d)) = Zpos (digits2_pos m) + Zpos d.
Proof.
  induction d as [ | d IH] using Pos.peano_ind.
  - simpl. lia.
  - rewrite Pos.iter_succ. simpl digits2_pos.
    rewrite Pos2Z.inj_succ, IH. lia.
Qed.

Lemma shr_1_m (mrs : shr_record) :
  0 <= shr_m mrs -> shr_m (shr_1 mrs) = shr_m mrs / 2.
Proof.
  destruct mrs as [m r s]. cbn [shr_m]. intros Hm.
  destruct m as [ | [p | p | ] | p]; cbn [shr_1 shr_m]; try lia.
  - reflexivity.
  - apply Z.div_unique with 1; lia.
  - apply Z.div_unique with 0; lia.
  - reflexivity.
Qed.

Lemma pow2_xO (p : positive) : 2 ^ Zpos p~0 = 2 ^ Zpos p * 2 ^ Zpos p.
Proof. rewrite <- Z.pow_add_r by lia. f_equal. lia. Qed.

Lemma pow2_xI (p : positive) :
  2 ^ Zpos p~1 = 2 * (2 ^ Zpos p * 2 ^ Zpos p).
Proof.
  rewrite <- Z.pow_add_r, <- Z.pow_succ_r by lia. f_equal. lia.
Qed.

Lemma iter_shr_1_m (p : positive) :
  forall mrs : shr_record,
    0 <= shr_m mrs ->
    shr_m (iter_pos shr_1 p mrs) = shr_m mrs / 2 ^ Zpos p.
Proof.
  assert (Hnn : forall mrs, 0 <= shr_m mrs -> 0 <= shr_m (shr_1 mrs)).
  { intros mrs H. rewrite shr_1_m by exact H. apply Z.div_pos; lia. }
  assert (Hpow : forall q, 0 < 2 ^ Zpos q) by (intros; apply Z.pow_pos_nonneg; lia).
  induction p as [p IH | p IH | ]; intros mrs Hm; simpl iter_pos.
  - pose proof (Hnn mrs Hm) as H1.
    pose proof (IH (shr_1 mrs) H1) as E1.
    assert (H2 : 0 <= shr_m (iter_pos shr_1 p (shr_1 mrs)))
      by (rewrite E1; apply Z.div_pos; [exact H1 | apply Hpow]).
    rewrite (IH _ H2), E1, (shr_1_m mrs Hm).
    pose proof (Hpow p).
    rewrite !Z.div_div by lia. f_equal.
    rewrite pow2_xI. ring.
  - pose proof (IH mrs Hm) as E1.
    assert (H2 : 0 <= shr_m (iter_pos shr_1 p mrs))
      by (rewrite E1; apply Z.div_pos; [exact Hm | apply Hpow]).
    rewrite (IH _ H2), E1. pose proof (Hpow p).
    rewrite !Z.div_div by lia. f_equal.
    rewrite pow2_xO. ring.
  - rewrite shr_1_m by exact Hm. reflexivity.
Qed.

(** fexp on the range that matters *)
Lemma fexp_above (d : Z) : -1021 <= d -> fexp prec emax d = d - 53.
Proof. intros H. unfold fexp, emin, prec, emax. lia. Qed.

(** After [shr_fexp] the mantissa is positive and the exponent is the
    larger of the old one and of [digits + e - 53]. *)
Lemma shr_fexp_positive (m : positive) (e : Z) (l : location) :
  -1021 <= Zpos (digits2_pos m) + e ->
  0 < shr_m (fst (shr_fexp prec emax (Zpos m) e l))
  /\ snd (shr_fexp prec emax (Zpos m) e l)
     = Z.max e (Zpos (digits2_pos m) + e - 53).
Proof.
  intros HD. unfold shr_fexp. cbn [Zdigits2]. rewrite (fexp_above _ HD).
  unfold shr.
  destruct (Zpos (digits2_pos m) + e - 53 - e) as [ | n | n] eqn:Hn.
  - cbn [fst snd]. split; [ | lia]. destruct l as [ | []]; cbn; lia.
  - cbn [fst snd]. split; [ | lia].
    assert (H0 : shr_m (shr_record_of_loc (Zpos m) l) = Zpos m)
      by (destruct l as [ | []]; reflexivity).
    rewrite iter_shr_1_m by (rewrite H0; lia). rewrite H0.
    apply Z.div_str_pos. split; [apply Z.pow_pos_nonneg; lia | ].
    pose proof (digits2_pos_bounds m) as [Hlow _].
    eapply Z.le_trans; [ | exact Hlow].
    apply Z.pow_le_mono_r; lia.
  - cbn [fst snd]. split; [ | lia]. destruct l as [ | []]; cbn; lia.
Qed.

Lemma round_nearest_even_ge (m : Z) (l : location) :
  m <= round_nearest_even m l.
Proof.
  unfold round_nearest_even. destruct l as [ | []]; try lia.
  destruct (Z.even m); lia.
Qed.

Lemma binary_round_aux_coarse (s : bool) (m : positive) (e : Z)
  (l : location) :
  1 <= Zpos (digits2_pos m) + e ->
  coarse (binary_round_aux prec emax s (Zpos m) e l).
Proof.
  intros HD. unfold binary_round_aux.
  destruct (shr_fexp_positive m e l) as [Hm1 He1]; [lia | ].
  destruct (shr_fexp prec emax (Zpos m) e l) as [mrs1 e1].
  cbn [fst snd] in Hm1, He1.
  pose proof (round_nearest_even_ge (shr_m mrs1) (loc_of_shr_record mrs1))
    as Hge.
  destruct (round_nearest_even (shr_m mrs1) (loc_of_shr_record mrs1))
    as [ | m2 | m2]; try lia.
  destruct (shr_fexp_positive m2 e1 loc_Exact) as [Hm2 He2]; [lia | ].
  destruct (shr_fexp prec emax (Zpos m2) e1 loc_Exact) as [mrs2 e2].
  cbn [fst snd] in Hm2, He2.
  destruct (shr_m mrs2) as [ | m3 | m3]; try lia.
  destruct (e2 <=? emax - prec); [ | exact I].
  cbn [coarse]. lia.
Qed.

Lemma binary_round_coarse (s : bool) (m : positive) (e : Z) :
  1 <= Zpos (digits2_pos m) + e ->
  coarse (binary_round prec emax s m e).
Proof.
  intros HD. unfold binary_round. rewrite fexp_above by lia.
  unfold shl_align.
  destruct (Zpos (digits2_pos m) + e - 53 - e) as [ | d | d] eqn:Hd.
  - apply binary_round_aux_coarse. exact HD.
  - apply binary_round_aux_coarse. exact HD.
  - apply binary_round_aux_coarse. rewrite iter_xO_digits. lia.
Qed.

Lemma binary_normalize_coarse (z e : Z) :
  e <= 0 -> 2 ^ (- e) <= Z.abs z ->
  coarse (binary_normalize prec emax z e false).
Proof.
  intros He Hz.
  assert (Hpos : 0 < 2 ^ (- e)) by (apply Z.pow_pos_nonneg; lia).
  assert (Hdig : forall p : positive,
             2 ^ (- e) <= Zpos p -> 1 <= Zpos (digits2_pos p) + e).
  { intros p Hp. pose proof (digits2_pos_bounds p) as [_ Hup].
    assert (Hlt : 2 ^ (- e) < 2 ^ Zpos (digits2_pos p)) by lia.
    apply Z.pow_lt_mono_r_iff in Hlt; lia. }
  destruct z as [ | p | p]; cbn [binary_normalize].
  - simpl in Hz. lia.
  - apply binary_round_coarse. apply Hdig. exact Hz.
  - apply binary_round_coarse. apply Hdig. exact Hz.
Qed.

Lemma coarse_not_within_tolerance (r : number) :
  coarse r -> lt (abs r) tolerance = false.
Proof.
  destruct r as [s | s | | s m e]; cbn [coarse]; intros H.
  - contradiction.
  - reflexivity.
  - reflexivity.
  - unfold lt, abs, SFabs, SFltb, tolerance, SFcompare.
    replace (e ?= -59) with Gt by (symmetry; apply Z.compare_gt_iff; lia).
    reflexivity.
Qed.

Lemma shl_align_fst (m : positive) (e e' : Z) :
  e' <= e -> Zpos (fst (shl_align m e e')) = Zpos m * 2 ^ (e - e').
Proof.
  intros Hle. unfold shl_align.
  destruct (e' - e) as [ | d | d] eqn:Hd; cbn [fst].
  - replace (e - e') with 0 by lia. lia.
  - lia.
  - rewrite iter_xO_mul. f_equal. f_equal. lia.
Qed.

Lemma cond_Zopp_mul (s : bool) (m k : Z) :
  cond_Zopp s (m * k) = cond_Zopp s m * k.
Proof. destruct s; simpl; lia. Qed.

Lemma aligned_integer (s : bool) (m : positive) (e ez a : Z) :
  ez <= e <= 0 ->
  cond_Zopp s (Zpos m) = a * 2 ^ (- e) ->
  cond_Zopp s (Zpos (fst (shl_align m e ez))) = a * 2 ^ (- ez).
Proof.
  intros He Hm. rewrite shl_align_fst, cond_Zopp_mul, Hm by lia.
  rewrite <- Z.mul_assoc, <- Z.pow_add_r by lia. f_equal. f_equal. lia.
Qed.

Lemma sub_integers_coarse (x y : number) (a b : Z) :
  holds_integer x a -> holds_integer y b -> a <> b -> coarse (sub x y).
Proof.
  destruct x as [sx | sx | | sx mx ex]; destruct y as [sy | sy | | sy my ey];
    cbn [holds_integer]; try contradiction.
  - intros -> -> H. contradiction H. reflexivity.
  - intros _ (He & _ & _) _. cbn. lia.
  - intros (He & _ & _) _ _. cbn. lia.
  - intros (Hex & Hx & _) (Hey & Hy & _) Hne.
    unfold sub, SFsub. apply binary_normalize_coarse; [lia | ].
    rewrite (aligned_integer sx mx ex _ a) by (try exact Hx; lia).
    rewrite (aligned_integer sy my ey _ b) by (try exact Hy; lia).
    rewrite <- Z.mul_sub_distr_r, Z.abs_mul.
    assert (Hpos : 0 < 2 ^ (- Z.min ex ey))
      by (apply Z.pow_pos_nonneg; lia).
    rewrite (Z.abs_eq (2 ^ _)) by lia.
    assert (1 <= Z.abs (a - b)) by lia. nia.
Qed.

Lemma binary_round_aux_exact (s : bool) (m : positive) (e : Z) :
  Zpos (digits2_pos m) = 53 -> -52 <= e <= 0 ->
  binary_round_aux prec emax s (Zpos m) e loc_Exact = S754_finite s m e.
Proof.
  intros Hd He.
  assert (Hsame : shr_fexp prec emax (Zpos m) e loc_Exact
                  = ({| shr_m := Zpos m; shr_r := false; shr_s := false |}, e)).
  { unfold shr_fexp. cbn [Zdigits2]. rewrite Hd, fexp_above by lia.
    replace (53 + e - 53 - e) with 0 by lia. reflexivity. }
  unfold binary_round_aux. rewrite Hsame. cbn [shr_m loc_of_shr_record
    round_nearest_even]. rewrite Hsame. cbn [shr_m].
  replace (e <=? emax - prec) with true
    by (symmetry; apply Z.leb_le; unfold emax, prec; lia).
  reflexivity.
Qed.

Lemma binary_round_exact (s : bool) (p : positive) :
  Zpos p < 2 ^ 53 ->
  exists (m : positive) (e : Z),
    binary_round prec emax s p 0 = S754_finite s m e
    /\ -52 <= e <= 0 /\ Zpos m = Zpos p * 2 ^ (- e).
Proof.
  intros Hp. pose proof (digits2_pos_bounds p) as [Hlow _].
  assert (Hd : Zpos (digits2_pos p) <= 53).
  { assert (H : 2 ^ (Zpos (digits2_pos p) - 1) < 2 ^ 53) by lia.
    apply Z.pow_lt_mono_r_iff in H; lia. }
  unfold binary_round. rewrite fexp_above by lia. unfold shl_align.
  destruct (Zpos (digits2_pos p) + 0 - 53 - 0) as [ | d | d] eqn:Hshift.
  - exists p, 0. rewrite binary_round_aux_exact by lia.
    split; [reflexivity | ]. split; lia.
  - lia.
  - exists (Pos.iter xO p d), (Zpos (digits2_pos p) + 0 - 53).
    rewrite binary_round_aux_exact
      by (try rewrite iter_xO_digits; lia).
    split; [reflexivity | ]. split; [lia | ].
    rewrite iter_xO_mul. f_equal. f_equal. lia.
Qed.

Lemma of_Z_holds_integer (a : Z) :
  Z.abs a < 2 ^ 53 -> holds_integer (of_Z a) a.
Proof.
  intros Ha. unfold of_Z. destruct a as [ | p | p]; cbn [binary_normalize].
  - reflexivity.
  - destruct (binary_round_exact false p) as (m & e & -> & He & Hm);
      [exact Ha | ].
    cbn [holds_integer cond_Zopp]. split; [exact He | ].
    split; [exact Hm | discriminate].
  - destruct (binary_round_exact true p) as (m & e & -> & He & Hm);
      [exact Ha | ].
    cbn [holds_integer cond_Zopp]. split; [exact He | ].
    split; [ | discriminate]. rewrite Hm.
    change (Z.neg p) with (- Zpos p). ring.
Qed.

(** X16.  For integers [a] and [b] below 2^53 in absolute value: when the answer
    text parses to [a] and the problem's answer is [b], the answer is
    graded correct if and only if [a = b]. *)
Theorem integer_answers_are_graded_by_equality :
  forall (a b : Z) (numAnswer : number) (p : MathProblem),
    Z.abs a < 2 ^ 53 ->
    Z.abs b < 2 ^ 53 ->
    numAnswer = of_Z a ->
    answer p = of_Z b ->
    (grade numAnswer p = true <-> a = b).
Proof.
  intros a b x p Ha Hb -> Hans.
  pose proof (of_Z_holds_integer a Ha) as Hx.
  pose proof (of_Z_holds_integer b Hb) as Hy.
  split.
  - intros Hgrade. destruct (Z.eq_dec a b) as [Heq | Hne]; [exact Heq | ].
    unfold grade in Hgrade. rewrite Hans in Hgrade.
    rewrite (coarse_not_within_tolerance _
               (sub_integers_coarse _ _ a b Hx Hy Hne)) in Hgrade.
    discriminate Hgrade.
  - intros <-. apply (grade_same_number (of_Z a) p Hans).
    destruct (of_Z a); cbn [holds_integer] in Hx;
      [reflexivity | contradiction | contradiction | reflexivity].
Qed.

End IntegerGrading.

(** * Grading, on the values of the two numbers

    What [Math.abs(numAnswer - currentProblem.answer) < 0.01] decides, said
    on the values of [numAnswer] and [currentProblem.answer] rather than on
    the operations: the subtraction rounds the exact difference to 53 bits,
    to nearest and ties to even, and the comparison with the literal then
    reads the rounded number.  The literal is [5764607523034235 * 2^-59];
    the numbers below it end at [5764607523034234 * 2^-59], and the exact
    differences that round there or lower are those of at most the midpoint,
    [11529215046068469 * 2^-60] (the tie goes to the even mantissa, the
    lower one). *)

Section GradingOnValues.

Variable parseFloat : string -> number.
Variable JSON_parse : string -> Completion (list MathProblem).

Local Abbreviation step := (App.step parseFloat JSON_parse).

Local Open Scope Z_scope.

(** ** Shifting a mantissa right and rounding it *)

Lemma fexp_eq (z : Z) : fexp prec emax z = Z.max (z - 53) (-1074).
Proof. reflexivity. Qed.

Lemma iter_pos_nat {A : Type} (f : A -> A) (p : positive) :
  forall x : A, iter_pos f p x = Nat.iter (Pos.to_nat p) f x.
Proof.
  induction p as [p IH | p IH | ]; intros x; simpl iter_pos.
  - rewrite !IH, Pos2Nat.inj_xI.
    rewrite <- Nat.iter_succ_r, <- Nat.iter_add. f_equal. lia.
  - rewrite !IH, Pos2Nat.inj_xO. rewrite <- Nat.iter_add. f_equal. lia.
  - reflexivity.
Qed.

Lemma shr_1_record (q : Z) (r s : bool) :
  0 <= q ->
  shr_1 {| shr_m := q; shr_r := r; shr_s := s |}
  = {| shr_m := q / 2; shr_r := Z.odd q; shr_s := r || s |}.
Proof.
  intros Hq. destruct q as [ | [p | p | ] | p]; try lia; cbn [shr_1].
  - reflexivity.
  - f_equal. apply Z.div_unique with 1; lia.
  - f_equal. apply Z.div_unique with 0; lia.
  - reflexivity.
Qed.

(** After [k + 1] shifts of a mantissa without round and sticky bits. *)
Lemma shr_iter (m : Z) (k : nat) :
  0 <= m ->
  Nat.iter (S k) shr_1 {| shr_m := m; shr_r := false; shr_s := false |}
  = {| shr_m := m / 2 ^ (Z.of_nat k + 1);
       shr_r := Z.odd (m / 2 ^ Z.of_nat k);
       shr_s := negb (m mod 2 ^ Z.of_nat k =? 0) |}.
Proof.
  intros Hm. induction k as [ | k IH].
  - cbn [Nat.iter]. rewrite shr_1_record by exact Hm.
    change (2 ^ (Z.of_nat 0 + 1)) with 2. change (2 ^ Z.of_nat 0) with 1.
    rewrite Z.div_1_r, Z.mod_1_r. reflexivity.
  - change (Nat.iter (S (S k)) shr_1 ?x) with (shr_1 (Nat.iter (S k) shr_1 x)).
    rewrite IH.
    assert (Hpow : 0 < 2 ^ Z.of_nat k) by (apply Z.pow_pos_nonneg; lia).
    rewrite shr_1_record
      by (apply Z.div_pos; [exact Hm | apply Z.pow_pos_nonneg; lia]).
    rewrite Nat2Z.inj_succ.
    replace (Z.succ (Z.of_nat k)) with (Z.of_nat k + 1) by lia.
    assert (Hm1 : m / 2 ^ (Z.of_nat k + 1) / 2
                  = m / 2 ^ (Z.of_nat k + 1 + 1)).
    { rewrite Z.div_div by (try apply Z.pow_pos_nonneg; lia).
      f_equal. rewrite (Z.pow_add_r 2 (Z.of_nat k + 1) 1) by lia.
      reflexivity. }
    assert (Hs : Z.odd (m / 2 ^ Z.of_nat k)
                 || negb (m mod 2 ^ Z.of_nat k =? 0)
                 = negb (m mod 2 ^ (Z.of_nat k + 1) =? 0)).
    { rewrite (Z.pow_add_r 2 (Z.of_nat k) 1) by lia. change (2 ^ 1) with 2.
      rewrite Z.rem_mul_r by lia.
      pose proof (Z.mod_pos_bound m (2 ^ Z.of_nat k) Hpow) as Hb.
      rewrite Zodd_mod.
      pose proof (Z.mod_pos_bound (m / 2 ^ Z.of_nat k) 2 ltac:(lia)) as Hb2.
      destruct (Z.eqb_spec ((m / 2 ^ Z.of_nat k) mod 2) 1) as [H1 | H1];
        destruct (Z.eqb_spec (m mod 2 ^ Z.of_nat k) 0) as [H0 | H0];
        cbn [negb orb]; symmetry.
      * apply negb_true_iff, Z.eqb_neq. nia.
      * apply negb_true_iff, Z.eqb_neq. nia.
      * apply negb_false_iff, Z.eqb_eq. nia.
      * apply negb_true_iff, Z.eqb_neq. nia. }
    rewrite Hm1, Hs. reflexivity.
Qed.

Lemma rne_record (q : Z) (r s : bool) :
  round_nearest_even q
    (loc_of_shr_record {| shr_m := q; shr_r := r; shr_s := s |})
  = if r then (if s then q + 1 else if Z.even q then q else q + 1) else q.
Proof. destruct r, s; reflexivity. Qed.

(** The mantissa [m], shifted right by [k + 1] and rounded to nearest,
    ties to even: it is within one of the quotient, and it is at most an
    even [j] exactly when [m] is at most [j] and a half, times [2^(k+1)]. *)
Lemma rounded_shift (m : Z) (k : nat) :
  0 <= m ->
  let mrs := Nat.iter (S k) shr_1
               {| shr_m := m; shr_r := false; shr_s := false |} in
  let q1 := round_nearest_even (shr_m mrs) (loc_of_shr_record mrs) in
  m / 2 ^ (Z.of_nat k + 1) <= q1 <= m / 2 ^ (Z.of_nat k + 1) + 1
  /\ forall j : Z,
       Z.even j = true ->
       (q1 <= j <-> 2 * m <= (2 * j + 1) * 2 ^ (Z.of_nat k + 1)).
Proof.
  intros Hm mrs q1. subst q1 mrs. rewrite shr_iter by exact Hm.
  cbn [shr_m]. rewrite rne_record.
  set (h := 2 ^ Z.of_nat k).
  assert (Hh : 0 < h) by (apply Z.pow_pos_nonneg; lia).
  assert (Hpow : 2 ^ (Z.of_nat k + 1) = h * 2)
    by (unfold h; rewrite Z.pow_add_r by lia; reflexivity).
  rewrite Hpow. rewrite <- Z.div_div by lia.
  set (a := m / h).
  pose proof (Z.div_mod m h ltac:(lia)) as Hdm. fold a in Hdm.
  pose proof (Z.mod_pos_bound m h Hh) as Hb.
  set (t := m mod h) in *.
  pose proof (Z.div_mod a 2 ltac:(lia)) as Hda.
  pose proof (Z.mod_pos_bound a 2 ltac:(lia)) as Hb2.
  rewrite Zodd_mod.
  set (q := a / 2) in *. set (rb := a mod 2) in *.
  destruct (Z.eqb_spec rb 1) as [Hr | Hr];
    destruct (Z.eqb_spec t 0) as [Ht | Ht]; cbn [negb].
  - split; [destruct (Z.even q); lia | ].
    intros j Hj. destruct (Z.even q) eqn:Hq.
    + split; intros H; nia.
    + split; intros H.
      * assert (q <> j) by (intros ->; congruence). nia.
      * assert (q <> j) by (intros ->; congruence). nia.
  - split; [lia | ]. intros j Hj. split; intros H; nia.
  - split; [lia | ]. intros j Hj. split; intros H; nia.
  - split; [lia | ]. intros j Hj. split; intros H; nia.
Qed.

Lemma shr_nonpos (mrs : shr_record) (e n : Z) :
  n <= 0 -> shr mrs e n = (mrs, e).
Proof. intros Hn. destruct n; [reflexivity | lia | reflexivity]. Qed.

Lemma digits2_pos_le (q : positive) (b : Z) :
  Zpos q < 2 ^ b -> Zpos (digits2_pos q) <= b.
Proof.
  intros Hq. pose proof (digits2_pos_bounds q) as [Hlow _].
  destruct (Z_lt_le_dec b 0) as [Hneg | Hb].
  { rewrite Z.pow_neg_r in Hq by exact Hneg. lia. }
  assert (H : 2 ^ (Zpos (digits2_pos q) - 1) < 2 ^ b) by lia.
  apply Z.pow_lt_mono_r_iff in H; lia.
Qed.

(** The second half of [binary_round_aux]: a rounded mantissa [q] of at
    most 53 bits, or [2^53], at an exponent [E] not below the least. *)
Lemma second_shift (s : bool) (q E : Z) :
  -1074 <= E -> 0 <= q <= 2 ^ 53 ->
  (let '(mrs, e) := shr_fexp prec emax q E loc_Exact in
   match shr_m mrs with
   | Z0 => S754_zero s
   | Zpos m => if e <=? emax - prec then S754_finite s m e
              else S754_infinity s
   | Zneg _ => S754_nan
   end)
  = if q =? 0 then S754_zero s
    else if q <? 2 ^ 53
         then if E <=? 971 then S754_finite s (Z.to_pos q) E
              else S754_infinity s
         else if E + 1 <=? 971 then S754_finite s (Z.to_pos (2 ^ 52)) (E + 1)
              else S754_infinity s.
Proof.
  intros HE Hq. destruct q as [ | q | q]; [ | | lia].
  - unfold shr_fexp. cbn [Zdigits2]. rewrite fexp_eq.
    rewrite shr_nonpos by lia. reflexivity.
  - change (Zpos q =? 0) with false. cbv iota.
    destruct (Z.ltb_spec (Zpos q) (2 ^ 53)) as [Hlt | Hge].
    + pose proof (digits2_pos_le q 53 Hlt) as Hd.
      unfold shr_fexp. cbn [Zdigits2]. rewrite fexp_eq.
      rewrite shr_nonpos by lia. reflexivity.
    + assert (Hq53 : Zpos q = 2 ^ 53) by lia.
      assert (q = Z.to_pos (2 ^ 53)) as -> by (rewrite <- Hq53; reflexivity).
      unfold shr_fexp. cbn [Zdigits2]. rewrite fexp_eq.
      replace (Z.max (Zpos (digits2_pos (Z.to_pos (2 ^ 53))) + E - 53) (-1074)
               - E) with 1
        by (change (Zpos (digits2_pos (Z.to_pos (2 ^ 53)))) with 54; lia).
      reflexivity.
Qed.

Lemma lt_tolerance_finite (s : bool) (m : positive) (e : Z) :
  lt (abs (S754_finite s m e)) tolerance = true
  <-> e < -59 \/ (e = -59 /\ Zpos m < 5764607523034235).
Proof.
  unfold lt, abs, SFabs, SFltb, tolerance, SFcompare.
  destruct (Z.compare_spec e (-59)) as [He | He | He].
  - rewrite Pos.compare_cont_spec. cbn [Pos.switch_Eq].
    rewrite Pos2Z.inj_compare.
    destruct (Z.compare_spec (Zpos m) (Zpos 5764607523034235))
      as [Hm | Hm | Hm].
    + split; [discriminate | ]. intros [H | [_ H]]; lia.
    + split; [ | reflexivity]. intros _. right. split; assumption.
    + split; [discriminate | ]. intros [H | [_ H]]; lia.
  - split; [intros _; left; exact He | reflexivity].
  - split; [discriminate | ]. intros [H | [H _]]; lia.
Qed.

Lemma first_shift (mz : positive) (e1 : Z) :
  let E := fexp prec emax (Zpos (digits2_pos mz) + e1) in
  e1 <= E ->
  exists mrs : shr_record,
    shr_fexp prec emax (Zpos mz) e1 loc_Exact = (mrs, E)
    /\ let q1 := round_nearest_even (shr_m mrs) (loc_of_shr_record mrs) in
       Zpos mz / 2 ^ (E - e1) <= q1 <= Zpos mz / 2 ^ (E - e1) + 1
       /\ forall j : Z,
            Z.even j = true ->
            (q1 <= j <-> 2 * Zpos mz <= (2 * j + 1) * 2 ^ (E - e1)).
Proof.
  intros E. unfold shr_fexp. cbn [Zdigits2]. fold E. clearbody E.
  intros HE.
  destruct (E - e1) as [ | p | p] eqn:Hn;
    [ | | exfalso; pose proof (Pos2Z.neg_is_neg p); lia].
  - exists {| shr_m := Zpos mz; shr_r := false; shr_s := false |}.
    split; [cbn; f_equal; lia | ].
    cbn [shr_m loc_of_shr_record round_nearest_even].
    change (2 ^ 0) with 1. rewrite Z.div_1_r.
    split; [lia | ]. intros j _. lia.
  - destruct (Pos2Nat.is_succ p) as [k Hk].
    exists (Nat.iter (S k) shr_1
              {| shr_m := Zpos mz; shr_r := false; shr_s := false |}).
    split.
    + cbn [shr shr_record_of_loc]. rewrite iter_pos_nat, Hk. f_equal. lia.
    + assert (Hp : Zpos p = Z.of_nat k + 1) by lia.
      rewrite Hp. apply rounded_shift. lia.
Qed.

Lemma lt_binary_round_aux (s : bool) (mz : positive) (e1 : Z) :
  -1074 <= e1 ->
  e1 <= fexp prec emax (Zpos (digits2_pos mz) + e1) ->
  (lt (abs (binary_round_aux prec emax s (Zpos mz) e1 loc_Exact)) tolerance
   = true
   <-> Zpos mz * 2 ^ (e1 + 1074) <= 11529215046068469 * 2 ^ 1014).
Proof.
  intros He1 HE.
  destruct (first_shift mz e1 HE) as (mrs & Hshift & Hq & Hrne).
  unfold binary_round_aux. rewrite Hshift. cbv iota beta.
  set (q1 := round_nearest_even (shr_m mrs) (loc_of_shr_record mrs)) in *.
  rewrite fexp_eq in *.
  pose proof (digits2_pos_bounds mz) as [Hlow Hup].
  assert (Hd : 1 <= Zpos (digits2_pos mz)) by lia.
  set (d := Zpos (digits2_pos mz)) in *.
  set (E := Z.max (d + e1 - 53) (-1074)) in *.
  assert (HE0 : -1074 <= E) by (unfold E; lia).
  assert (HE1 : d + e1 - 53 <= E) by (unfold E; lia).
  set (n := E - e1) in *.
  assert (Hn : 0 <= n) by (unfold n; lia).
  assert (Hpn : 0 < 2 ^ n) by (apply Z.pow_pos_nonneg; lia).
  assert (Hq0 : Zpos mz / 2 ^ n < 2 ^ 53).
  { apply Z.div_lt_upper_bound; [exact Hpn | ].
    rewrite <- Z.pow_add_r by lia.
    eapply Z.lt_le_trans; [exact Hup | apply Z.pow_le_mono_r; unfold n; lia]. }
  assert (Hq0' : 0 <= Zpos mz / 2 ^ n) by (apply Z.div_pos; lia).
  rewrite second_shift by lia.
  assert (Hinf : lt (abs (S754_infinity s)) tolerance = false)
    by reflexivity.
  assert (Hzero : lt (abs (S754_zero s)) tolerance = true) by reflexivity.
  assert (HP : 0 < 2 ^ 1014) by (apply Z.pow_pos_nonneg; lia).
  assert (HA : 0 < 2 ^ (e1 + 1074)) by (apply Z.pow_pos_nonneg; lia).
  (* above the least exponent the quotient has 53 bits *)
  assert (Hnormal : -1074 < E -> 2 ^ 52 <= Zpos mz / 2 ^ n).
  { intros Hgt. assert (Hn53 : n = d - 53) by (unfold n, E in *; lia).
    apply Z.div_le_lower_bound; [exact Hpn | ].
    rewrite <- Z.pow_add_r by lia.
    eapply Z.le_trans; [ | exact Hlow]. apply Z.pow_le_mono_r; lia. }
  destruct (Z_le_gt_dec E (-60)) as [Hsmall | Hbig].
  - (* the result is below the tolerance by its exponent *)
    assert (Hrhs : Zpos mz * 2 ^ (e1 + 1074)
                   <= 11529215046068469 * 2 ^ 1014).
    { assert (H1 : 2 ^ d * 2 ^ (e1 + 1074) <= 2 ^ 53 * 2 ^ 1014).
      { rewrite <- !Z.pow_add_r by lia. apply Z.pow_le_mono_r; lia. }
      change (2 ^ 53) with 9007199254740992 in H1.
      remember (2 ^ 1014) as P. remember (2 ^ (e1 + 1074)) as A.
      remember (2 ^ d) as B. nia. }
    split; [intros _; exact Hrhs | intros _].
    destruct (q1 =? 0); [exact Hzero | ].
    destruct (q1 <? 2 ^ 53).
    + replace (E <=? 971) with true by (symmetry; apply Z.leb_le; lia).
      apply lt_tolerance_finite. left. lia.
    + replace (E + 1 <=? 971) with true by (symmetry; apply Z.leb_le; lia).
      apply lt_tolerance_finite.
      destruct (Z.eq_dec (E + 1) (-59)) as [Heq | Hne].
      * right. split; [exact Heq | reflexivity].
      * left. lia.
  - specialize (Hnormal ltac:(lia)).
    replace (q1 =? 0) with false by (symmetry; apply Z.eqb_neq; lia).
    destruct (Z.eq_dec E (-59)) as [H59 | Hne].
    + (* the mantissas decide *)
      assert (Hlhs : q1 <= 5764607523034234
                     <-> Zpos mz * 2 ^ (e1 + 1074)
                         <= 11529215046068469 * 2 ^ 1014).
      { rewrite (Hrne 5764607523034234 eq_refl).
        change (2 * 5764607523034234 + 1) with 11529215046068469.
        assert (Hsplit : 2 ^ (e1 + 1074) * 2 ^ n = 2 * 2 ^ 1014).
        { rewrite <- Z.pow_add_r by lia.
          replace (e1 + 1074 + n) with (Z.succ 1014) by (unfold n; lia).
          apply Z.pow_succ_r. lia. }
        remember (2 ^ 1014) as P. remember (2 ^ (e1 + 1074)) as A.
        remember (2 ^ n) as B. split; intros H; nia. }
      rewrite <- Hlhs. rewrite H59.
      destruct (Z.ltb_spec q1 (2 ^ 53)) as [Hlt | Hge].
      * change (-59 <=? 971) with true. cbv iota.
        rewrite lt_tolerance_finite, Z2Pos.id by lia. lia.
      * change (-59 + 1 <=? 971) with true. cbv iota.
        rewrite lt_tolerance_finite.
        change (2 ^ 53) with 9007199254740992 in Hge. lia.
    + (* the result is above the tolerance by its exponent *)
      assert (Hrhs : ~ Zpos mz * 2 ^ (e1 + 1074)
                       <= 11529215046068469 * 2 ^ 1014).
      { assert (H1 : 2 ^ 54 * 2 ^ 1014 <= 2 ^ (d - 1) * 2 ^ (e1 + 1074)).
        { rewrite <- !Z.pow_add_r by lia. apply Z.pow_le_mono_r; lia. }
        change (2 ^ 54) with 18014398509481984 in H1.
        remember (2 ^ 1014) as P. remember (2 ^ (e1 + 1074)) as A.
        remember (2 ^ (d - 1)) as B. nia. }
      assert (Hlhs : forall m e, -59 < e ->
                 lt (abs (S754_finite s m e)) tolerance <> true).
      { intros m e He. rewrite lt_tolerance_finite. lia. }
      split; [ | intros H; contradiction].
      destruct (q1 <? 2 ^ 53).
      * destruct (E <=? 971); [ | rewrite Hinf; discriminate].
        intros H. exfalso. revert H. apply Hlhs. lia.
      * destruct (E + 1 <=? 971); [ | rewrite Hinf; discriminate].
        intros H. exfalso. revert H. apply Hlhs. lia.
Qed.

Lemma lt_binary_round (s : bool) (m : positive) (ez : Z) :
  -1074 <= ez ->
  (lt (abs (binary_round prec emax s m ez)) tolerance = true
   <-> Zpos m * 2 ^ (ez + 1074) <= 11529215046068469 * 2 ^ 1014).
Proof.
  intros Hez. unfold binary_round, shl_align.
  pose proof (fexp_eq (Zpos (digits2_pos m) + ez)) as HE.
  set (E := fexp prec emax (Zpos (digits2_pos m) + ez)) in *.
  destruct (E - ez) as [ | k | k] eqn:Hk.
  - apply lt_binary_round_aux; [exact Hez | fold E; lia].
  - apply lt_binary_round_aux; [exact Hez | fold E; lia].
  - assert (Hk' : Zpos k = ez - E) by lia.
    assert (Hdig : Zpos (digits2_pos (Pos.iter xO m k)) + E
                   = Zpos (digits2_pos m) + ez)
      by (rewrite iter_xO_digits; lia).
    rewrite lt_binary_round_aux;
      [ | lia | rewrite Hdig; fold E; lia].
    rewrite iter_xO_mul, Hk', <- Z.mul_assoc, <- Z.pow_add_r by lia.
    replace (ez - E + (E + 1074)) with (ez + 1074) by lia. reflexivity.
Qed.

Lemma lt_binary_normalize (z ez : Z) :
  -1074 <= ez ->
  (lt (abs (binary_normalize prec emax z ez false)) tolerance = true
   <-> Z.abs z * 2 ^ (ez + 1074) <= 11529215046068469 * 2 ^ 1014).
Proof.
  intros Hez. destruct z as [ | m | m]; cbn [binary_normalize Z.abs].
  - split; [intros _ | reflexivity].
    rewrite Z.mul_0_l. apply Z.mul_nonneg_nonneg; [lia | ].
    apply Z.pow_nonneg. lia.
  - apply lt_binary_round. exact Hez.
  - apply lt_binary_round. exact Hez.
Qed.

Lemma bounded_canonical (m : positive) (e : Z) :
  bounded prec emax m e = true ->
  -1074 <= e /\ Zpos (digits2_pos m) <= 53
  /\ (-1074 < e -> Zpos (digits2_pos m) = 53).
Proof.
  unfold bounded, canonical_mantissa. intros H.
  apply andb_true_iff in H. destruct H as [H _].
  apply Z.eqb_eq in H. rewrite fexp_eq in H. lia.
Qed.

Lemma lt_canonical (s : bool) (m : positive) (e : Z) :
  bounded prec emax m e = true ->
  (lt (abs (S754_finite s m e)) tolerance = true
   <-> Zpos m * 2 ^ (e + 1074) <= 11529215046068469 * 2 ^ 1014).
Proof.
  intros Hb. destruct (bounded_canonical m e Hb) as (He & Hd & Hnormal).
  pose proof (digits2_pos_bounds m) as [Hlow Hup].
  rewrite lt_tolerance_finite.
  destruct (Z_lt_le_dec e (-59)) as [Hlt | Hge].
  - split; [intros _ | intros _; left; exact Hlt].
    assert (H1 : 2 ^ Zpos (digits2_pos m) * 2 ^ (e + 1074)
                 <= 2 ^ 53 * 2 ^ 1014).
    { rewrite <- !Z.pow_add_r by lia. apply Z.pow_le_mono_r; lia. }
    assert (HA : 0 < 2 ^ (e + 1074)) by (apply Z.pow_pos_nonneg; lia).
    assert (HP : 0 < 2 ^ 1014) by (apply Z.pow_pos_nonneg; lia).
    change (2 ^ 53) with 9007199254740992 in H1.
    remember (2 ^ 1014) as P. remember (2 ^ (e + 1074)) as A.
    remember (2 ^ Zpos (digits2_pos m)) as B. nia.
  - destruct (Z.eq_dec e (-59)) as [-> | Hne].
    + assert (H1 : 2 ^ (-59 + 1074) = 2 * 2 ^ 1014) by reflexivity.
      rewrite H1.
      assert (HP : 0 < 2 ^ 1014) by (apply Z.pow_pos_nonneg; lia).
      remember (2 ^ 1014) as P. split; intros H; [nia | right; nia].
    + specialize (Hnormal ltac:(lia)). rewrite Hnormal in Hlow.
      assert (H1 : 2 ^ 54 * 2 ^ 1014 <= 2 ^ (53 - 1) * 2 ^ (e + 1074)).
      { rewrite <- !Z.pow_add_r by lia. apply Z.pow_le_mono_r; lia. }
      assert (HA : 0 < 2 ^ (e + 1074)) by (apply Z.pow_pos_nonneg; lia).
      assert (HP : 0 < 2 ^ 1014) by (apply Z.pow_pos_nonneg; lia).
      change (2 ^ 54) with 18014398509481984 in H1.
      remember (2 ^ 1014) as P. remember (2 ^ (e + 1074)) as A.
      remember (2 ^ (53 - 1)) as B.
      split; [intros [H | [H _]]; lia | intros H; exfalso; nia].
Qed.

Lemma units_aligned (s : bool) (m : positive) (e ez : Z) :
  -1074 <= ez <= e ->
  cond_Zopp s (Zpos (fst (shl_align m e ez))) * 2 ^ (ez + 1074)
  = units (S754_finite s m e).
Proof.
  intros He. cbn [units].
  rewrite shl_align_fst, cond_Zopp_mul, <- Z.mul_assoc, <- Z.pow_add_r by lia.
  f_equal. f_equal. lia.
Qed.

Lemma abs_cond_Zopp (s : bool) (z : Z) : Z.abs (cond_Zopp s z) = Z.abs z.
Proof. destruct s; simpl; lia. Qed.

Lemma lt_sub_units (x y : number) :
  binary64 x = true -> binary64 y = true ->
  finite x = true -> finite y = true ->
  (lt (abs (sub x y)) tolerance = true
   <-> Z.abs (units x - units y) <= 11529215046068469 * 2 ^ 1014).
Proof.
  assert (HP : 0 <= 11529215046068469 * 2 ^ 1014)
    by (apply Z.mul_nonneg_nonneg; [lia | apply Z.pow_nonneg; lia]).
  destruct x as [sx | sx | | sx mx ex]; destruct y as [sy | sy | | sy my ey];
    cbn [finite binary64 valid_binary]; intros Hx Hy Fx Fy;
    try discriminate.
  - split; [intros _; exact HP | intros _].
    destruct sx, sy; reflexivity.
  - change (sub (S754_zero sx) (S754_finite sy my ey))
      with (S754_finite (negb sy) my ey).
    rewrite (lt_canonical (negb sy) my ey Hy). cbn [units].
    rewrite Z.sub_0_l, Z.abs_opp, Z.abs_mul, abs_cond_Zopp.
    rewrite (Z.abs_eq (2 ^ _)) by (apply Z.pow_nonneg; lia). reflexivity.
  - change (sub (S754_finite sx mx ex) (S754_zero sy))
      with (S754_finite sx mx ex).
    rewrite (lt_canonical sx mx ex Hx). cbn [units].
    rewrite Z.sub_0_r, Z.abs_mul, abs_cond_Zopp.
    rewrite (Z.abs_eq (2 ^ _)) by (apply Z.pow_nonneg; lia). reflexivity.
  - destruct (bounded_canonical mx ex Hx) as (Hex & _ & _).
    destruct (bounded_canonical my ey Hy) as (Hey & _ & _).
    unfold sub, SFsub. rewrite lt_binary_normalize by lia.
    rewrite <- (units_aligned sx mx ex (Z.min ex ey)) by lia.
    rewrite <- (units_aligned sy my ey (Z.min ex ey)) by lia.
    rewrite <- Z.mul_sub_distr_r, Z.abs_mul.
    rewrite (Z.abs_eq (2 ^ _)) by (apply Z.pow_nonneg; lia). reflexivity.
Qed.

Lemma units_tolerance :
  units tolerance - 2 ^ 1014 = 11529215046068469 * 2 ^ 1014.
Proof. vm_compute. reflexivity. Qed.

Lemma grade_by_units (x : number) (p : MathProblem) :
  binary64 x = true -> binary64 (answer p) = true ->
  (grade x p = true
   <-> finite x = true /\ finite (answer p) = true
       /\ Z.abs (units x - units (answer p)) <= units tolerance - 2 ^ 1014).
Proof.
  intros Hx Hy. rewrite units_tolerance. unfold grade.
  destruct (finite x) eqn:Fx; [destruct (finite (answer p)) eqn:Fy | ].
  - rewrite (lt_sub_units x (answer p) Hx Hy Fx Fy). tauto.
  - split; [ | intros (_ & H & _); discriminate H].
    intros H. exfalso. revert H.
    destruct x as [sx | sx | | sx mx ex];
      destruct (answer p) as [sy | sy | | sy my ey];
      try discriminate Fx; try discriminate Fy;
      try (destruct sx, sy; discriminate); try (destruct sy; discriminate);
      discriminate.
  - split; [ | intros (H & _); discriminate H].
    intros H. exfalso. revert H.
    destruct x as [sx | sx | | sx mx ex]; try discriminate Fx;
      destruct (answer p) as [sy | sy | | sy my ey];
      try (destruct sx, sy; discriminate); try (destruct sx; discriminate);
      discriminate.
Qed.

Lemma canonical_order (m1 m2 : positive) (e1 e2 : Z) :
  bounded prec emax m1 e1 = true -> bounded prec emax m2 e2 = true ->
  e1 < e2 ->
  Zpos m1 * 2 ^ (e1 + 1074) < Zpos m2 * 2 ^ (e2 + 1074).
Proof.
  intros H1 H2 Hlt.
  destruct (bounded_canonical m1 e1 H1) as (He1 & Hd1 & _).
  destruct (bounded_canonical m2 e2 H2) as (He2 & _ & Hd2).
  specialize (Hd2 ltac:(lia)).
  pose proof (digits2_pos_bounds m1) as [_ Hup].
  pose proof (digits2_pos_bounds m2) as [Hlow _]. rewrite Hd2 in Hlow.
  assert (Hpow : 2 ^ Zpos (digits2_pos m1) * 2 ^ (e1 + 1074)
                 <= 2 ^ (53 - 1) * 2 ^ (e2 + 1074)).
  { rewrite <- !Z.pow_add_r by lia. apply Z.pow_le_mono_r; lia. }
  assert (HA : 0 < 2 ^ (e1 + 1074)) by (apply Z.pow_pos_nonneg; lia).
  assert (HB : 0 < 2 ^ (e2 + 1074)) by (apply Z.pow_pos_nonneg; lia).
  remember (2 ^ (e1 + 1074)) as A. remember (2 ^ (e2 + 1074)) as B.
  remember (2 ^ Zpos (digits2_pos m1)) as C. remember (2 ^ (53 - 1)) as D.
  nia.
Qed.

(** [units] orders the finite binary64 numbers as [<] does. *)
Lemma lt_by_units (x y : number) :
  binary64 x = true -> binary64 y = true ->
  finite x = true -> finite y = true ->
  (lt x y = true <-> units x < units y).
Proof.
  destruct x as [sx | sx | | sx mx ex]; destruct y as [sy | sy | | sy my ey];
    cbn [finite binary64 valid_binary units]; intros Hx Hy Fx Fy;
    try discriminate.
  - split; [discriminate | lia].
  - assert (HB : 0 < 2 ^ (ey + 1074))
      by (apply Z.pow_pos_nonneg; destruct (bounded_canonical my ey Hy); lia).
    destruct sy; cbn [lt SFltb SFcompare cond_Zopp];
      (split; [try discriminate | try reflexivity]); intros H; nia.
  - assert (HA : 0 < 2 ^ (ex + 1074))
      by (apply Z.pow_pos_nonneg; destruct (bounded_canonical mx ex Hx); lia).
    destruct sx; cbn [lt SFltb SFcompare cond_Zopp];
      (split; [try discriminate | try reflexivity]); intros H; nia.
  - assert (HA : 0 < 2 ^ (ex + 1074))
      by (apply Z.pow_pos_nonneg; destruct (bounded_canonical mx ex Hx); lia).
    assert (HB : 0 < 2 ^ (ey + 1074))
      by (apply Z.pow_pos_nonneg; destruct (bounded_canonical my ey Hy); lia).
    pose proof (canonical_order mx my ex ey Hx Hy) as Hxy.
    pose proof (canonical_order my mx ey ex Hy Hx) as Hyx.
    unfold lt, SFltb, SFcompare.
    destruct sx, sy; cbn [cond_Zopp].
    + destruct (Z.compare_spec ex ey) as [He | He | He].
      * subst ey. rewrite Pos.compare_cont_spec. cbn [Pos.switch_Eq].
        rewrite Pos2Z.inj_compare.
        destruct (Z.compare_spec (Zpos mx) (Zpos my)) as [Hm | Hm | Hm];
          cbn [CompOpp]; (split; [try discriminate | try reflexivity]);
          intros H; nia.
      * specialize (Hxy He). split; [discriminate | intros H; nia].
      * specialize (Hyx He). split; [intros _; nia | reflexivity].
    + split; [intros _; nia | reflexivity].
    + split; [discriminate | intros H; nia].
    + destruct (Z.compare_spec ex ey) as [He | He | He].
      * subst ey. rewrite Pos.compare_cont_spec. cbn [Pos.switch_Eq].
        rewrite Pos2Z.inj_compare.
        destruct (Z.compare_spec (Zpos mx) (Zpos my)) as [Hm | Hm | Hm];
          (split; [try discriminate | try reflexivity]); intros H; nia.
      * specialize (Hxy He). split; [intros _; nia | reflexivity].
      * specialize (Hyx He). split; [discriminate | intros H; nia].
Qed.

(** A hundredth lies between the threshold and the literal. *)
Lemma threshold_below_a_hundredth (d : Z) :
  d <= units tolerance - 2 ^ 1014 -> 100 * d < 2 ^ 1074.
Proof.
  rewrite units_tolerance.
  change (2 ^ 1074) with (1152921504606846976 * 2 ^ 1014).
  assert (HP : 0 < 2 ^ 1014) by (apply Z.pow_pos_nonneg; lia).
  remember (2 ^ 1014) as P. intros H. nia.
Qed.

(** A binary64 number that is zero or at least 2^-7 in absolute value is a
    multiple of 2^-59. *)
Lemma units_on_grid (x : number) :
  binary64 x = true ->
  units x = 0 \/ 2 ^ 1067 <= Z.abs (units x) ->
  exists k : Z, units x = k * 2 ^ 1015.
Proof.
  intros Hx [H0 | Hbig]; [exists 0; rewrite H0; reflexivity | ].
  destruct x as [sx | sx | | sx mx ex]; cbn [units] in *;
    try (exfalso; revert Hbig; change (Z.abs 0) with 0;
         assert (0 < 2 ^ 1067) by (apply Z.pow_pos_nonneg; lia); lia).
  destruct (bounded_canonical mx ex Hx) as (He & Hd & _).
  pose proof (digits2_pos_bounds mx) as [_ Hup].
  rewrite Z.abs_mul, abs_cond_Zopp in Hbig.
  rewrite (Z.abs_eq (2 ^ _)) in Hbig by (apply Z.pow_nonneg; lia).
  assert (Hex : -59 <= ex).
  { destruct (Z_lt_le_dec ex (-59)) as [Hlt | Hge]; [exfalso | exact Hge].
    assert (H1 : 2 ^ Zpos (digits2_pos mx) * 2 ^ (ex + 1074) <= 2 ^ 1067).
    { rewrite <- Z.pow_add_r by lia. apply Z.pow_le_mono_r; lia. }
    assert (HA : 0 < 2 ^ (ex + 1074)) by (apply Z.pow_pos_nonneg; lia).
    simpl Z.abs in Hbig.
    remember (2 ^ 1067) as P. remember (2 ^ (ex + 1074)) as A.
    remember (2 ^ Zpos (digits2_pos mx)) as B. nia. }
  exists (cond_Zopp sx (Zpos mx) * 2 ^ (ex + 59)).
  rewrite <- Z.mul_assoc, <- Z.pow_add_r by lia.
  f_equal. f_equal. lia.
Qed.

(** On multiples of 2^-59 the threshold and the hundredth select the same
    differences. *)
Lemma grid_threshold (k : Z) :
  Z.abs (k * 2 ^ 1015) <= units tolerance - 2 ^ 1014
  <-> 100 * Z.abs (k * 2 ^ 1015) < 2 ^ 1074.
Proof.
  rewrite units_tolerance.
  assert (HP : 0 < 2 ^ 1014) by (apply Z.pow_pos_nonneg; lia).
  rewrite Z.abs_mul, (Z.abs_eq (2 ^ 1015)) by (apply Z.pow_nonneg; lia).
  change (2 ^ 1015) with (2 * 2 ^ 1014).
  change (2 ^ 1074) with (1152921504606846976 * 2 ^ 1014).
  remember (2 ^ 1014) as P. remember (Z.abs k) as a.
  split; intros H; nia.
Qed.

(** ** The claim *)

(** C1, as the code has it.  Let [numAnswer] be the number parsed from the
    answer text and [d] the exact absolute difference between its value and
    that of the problem's answer, both binary64 numbers, counted in units of
    2^-1074 (so one hundredth is [2^1074 / 100] units).  Then:
    - the answer is graded correct if and only if both numbers are finite
      and [d] is at most the literal [0.01] less 2^-60, the largest
      difference that rounds below the literal;
    - so an answer graded correct differs from the problem's answer by
      strictly less than one hundredth;
    - when each of the two numbers is zero or at least 2^-7 in absolute
      value, the answer is graded correct if and only if both are finite and
      [d] is strictly less than one hundredth;
    - a text that parses to NaN is graded incorrect whatever the problem's
      answer is;
    - and this grade is the flag [handleSubmit] records for the current
      problem when the text is not empty. *)
Theorem graded_by_the_difference_of_values :
  forall (text : string) (currentProblem : MathProblem),
    let numAnswer := parseFloat text in
    let d := Z.abs (units numAnswer - units (answer currentProblem)) in
    binary64 numAnswer = true ->
    binary64 (answer currentProblem) = true ->
    (grade numAnswer currentProblem = true
     <-> finite numAnswer = true /\ finite (answer currentProblem) = true
         /\ d <= units tolerance - 2 ^ 1014)
    /\ (grade numAnswer currentProblem = true -> 100 * d < 2 ^ 1074)
    /\ ((units numAnswer = 0 \/ 2 ^ 1067 <= Z.abs (units numAnswer)) ->
        (units (answer currentProblem) = 0
         \/ 2 ^ 1067 <= Z.abs (units (answer currentProblem))) ->
        (grade numAnswer currentProblem = true
         <-> finite numAnswer = true /\ finite (answer currentProblem) = true
             /\ 100 * d < 2 ^ 1074))
    /\ (numAnswer = NaN -> grade numAnswer currentProblem = false)
    /\ forall s : State,
         userAnswer s = text ->
         text <> EmptyString ->
         nth_error (problems s) (currentIndex s) = Some currentProblem ->
         history (step s submit)
         = (history s
            ++ [{| HistoryItem.problem := currentProblem;
                   HistoryItem.userAnswer := text;
                   HistoryItem.isCorrect :=
                     grade numAnswer currentProblem |}])%list.
Proof.
  intros text p numAnswer d Hx Hy.
  pose proof (grade_by_units numAnswer p Hx Hy) as Hiff. fold d in Hiff.
  split; [exact Hiff | ]. split; [ | split; [ | split]].
  - intros H. apply Hiff in H. destruct H as (_ & _ & H).
    apply threshold_below_a_hundredth. exact H.
  - intros Gx Gy.
    destruct (units_on_grid numAnswer Hx Gx) as [kx Hkx].
    destruct (units_on_grid (answer p) Hy Gy) as [ky Hky].
    rewrite Hiff. unfold d. rewrite Hkx, Hky, <- Z.mul_sub_distr_r.
    rewrite grid_threshold. reflexivity.
  - intros ->. apply grade_NaN.
  - intros s <- Hfull Hnth.
    rewrite (step_submit_graded parseFloat JSON_parse s p Hfull Hnth).
    reflexivity.
Qed.

End GradingOnValues.

(** The unit is the least positive number, and one is 2^1074 of them. *)
Example units_samples :
  units (S754_finite false 1 (-1074)) = 1%Z
  /\ units (of_Z 1) = (2 ^ 1074)%Z
  /\ units (of_Z (-3)) = (- 3 * 2 ^ 1074)%Z
  /\ units tolerance = (5764607523034235 * 2 ^ 1015)%Z
  /\ (100 * (units tolerance - 2 ^ 1014) < 2 ^ 1074
      < 100 * units tolerance)%Z.
Proof. vm_compute. repeat split. Qed.

Lemma graded_by_the_difference_of_values_witness :
  let s := Sample.state_after Sample.third_typed in
  let p := {| question := "47 × 99 + 47"; answer := of_Z 4700;
              explanation := "提取公因数47，变成 47 × (99 + 1) = 47 × 100";
              type := "乘法分配律" |} in
  let x := JS.parseFloat "4700" in
  (binary64 x = true /\ binary64 (answer p) = true)
  /\ (finite x = true /\ finite (answer p) = true
      /\ (Z.abs (units x - units (answer p))
          <= units tolerance - 2 ^ 1014)%Z)
  /\ grade x p = true
  /\ (userAnswer s = "4700"
      /\ nth_error (problems s) (currentIndex s) = Some p
      /\ history (Sample.step s submit)
         = history s
           ++ [{| HistoryItem.problem := p; HistoryItem.userAnswer := "4700";
                  HistoryItem.isCorrect := true |}])
  /\ (JS.parseFloat "abc" = NaN /\ binary64 (JS.parseFloat "abc") = true
      /\ grade (JS.parseFloat "abc") p = false).
Proof.
  intros s p x.
  assert (Hx : binary64 x = true) by (vm_compute; reflexivity).
  assert (Hy : binary64 (answer p) = true) by (vm_compute; reflexivity).
  assert (Hvalues : finite x = true /\ finite (answer p) = true
                    /\ (Z.abs (units x - units (answer p))
                        <= units tolerance - 2 ^ 1014)%Z).
  { split; [vm_compute; reflexivity | ].
    split; [vm_compute; reflexivity | ].
    apply Z.leb_le. vm_compute. reflexivity. }
  assert (Htext : userAnswer s = "4700") by (vm_compute; reflexivity).
  assert (Hfull : "4700" <> EmptyString) by discriminate.
  assert (Hnth : nth_error (problems s) (currentIndex s) = Some p)
    by (vm_compute; reflexivity).
  assert (Hnan : JS.parseFloat "abc" = NaN) by (vm_compute; reflexivity).
  assert (Hz : binary64 (JS.parseFloat "abc") = true)
    by (vm_compute; reflexivity).
  destruct (graded_by_the_difference_of_values JS.parseFloat JS.JSON_parse
              "4700" p Hx Hy) as (Hiff & _ & _ & _ & Hrecorded).
  destruct (graded_by_the_difference_of_values JS.parseFloat JS.JSON_parse
              "abc" p Hz Hy) as (_ & _ & _ & Hincorrect & _).
  assert (Hgrade : grade x p = true) by (apply Hiff; exact Hvalues).
  split; [split; assumption | ]. split; [exact Hvalues | ].
  split; [exact Hgrade | ]. split.
  - split; [exact Htext | ]. split; [exact Hnth | ].
    exact (Hrecorded s Htext Hfull Hnth).
  - split; [exact Hnan | ]. split; [exact Hz | ]. exact (Hincorrect Hnan).
Defined.

(** C1 as stated fails: here the two numbers differ by less than one
    hundredth, and by less than the literal [0.01] too, yet their difference
    rounds to the literal itself and the answer is recorded as incorrect. *)
Lemma difference_below_a_hundredth_graded_incorrect :
  let s := Sample.state_after Sample.tiny_answer_typed in
  let p := {| question := "1e-18 - 2e-18"; answer := JS.parseFloat "-1e-18";
              explanation := EmptyString; type := EmptyString |} in
  let x := JS.parseFloat "0.009999999999999998" in
  userAnswer s = "0.009999999999999998"
  /\ nth_error (problems s) (currentIndex s) = Some p
  /\ x = S754_finite false 5764607523034234 (-59)
  /\ answer p = S754_finite true 5192296858534828 (-112)
  /\ binary64 x = true /\ binary64 (answer p) = true
  /\ (100 * Z.abs (units x - units (answer p)) < 2 ^ 1074)%Z
  /\ (Z.abs (units x - units (answer p)) < units tolerance)%Z
  /\ sub x (answer p) = tolerance
  /\ grade x p = false
  /\ map HistoryItem.isCorrect (history (Sample.step s submit)) = [false].
Proof. vm_compute. repeat split. Qed.

(** * Instances on sample sessions *)

Lemma history_lists_the_problems_in_order_witness :
  let s := Sample.state_after Sample.finished in
  App.reachable JS.parseFloat JS.JSON_parse s
  /\ gameState s = summary
  /\ map HistoryItem.problem (history s) = fallback.
Proof.
  intros s.
  assert (Hreach : App.reachable JS.parseFloat JS.JSON_parse s)
    by (exists Sample.finished; vm_compute; reflexivity).
  assert (Hsum : gameState s = summary) by (vm_compute; reflexivity).
  split; [exact Hreach | ]. split; [exact Hsum | ].
  exact (proj2 (history_lists_the_problems_in_order
                  JS.parseFloat JS.JSON_parse s Hreach) Hsum).
Defined.

Lemma every_record_is_a_graded_answer_witness :
  let s := Sample.state_after Sample.finished in
  let item := {| HistoryItem.problem := nth 1 fallback (nth 0 fallback
                   {| question := EmptyString; answer := NaN;
                      explanation := EmptyString; type := EmptyString |});
                 HistoryItem.userAnswer := "abc";
                 HistoryItem.isCorrect := false |} in
  App.reachable JS.parseFloat JS.JSON_parse s
  /\ In item (history s)
  /\ HistoryItem.userAnswer item <> EmptyString
  /\ HistoryItem.isCorrect item
     = grade (JS.parseFloat (HistoryItem.userAnswer item))
             (HistoryItem.problem item).
Proof.
  intros s item.
  assert (Hreach : App.reachable JS.parseFloat JS.JSON_parse s)
    by (exists Sample.finished; vm_compute; reflexivity).
  assert (Hin : In item (history s))
    by (vm_compute; right; left; reflexivity).
  split; [exact Hreach | ]. split; [exact Hin | ].
  exact (every_record_is_a_graded_answer
           JS.parseFloat JS.JSON_parse s item Hreach Hin).
Defined.

Lemma score_is_at_most_the_number_of_problems_witness :
  let s := Sample.state_after Sample.finished in
  App.reachable JS.parseFloat JS.JSON_parse s
  /\ score s <= List.length (problems s)
  /\ score s = 2 /\ List.length (problems s) = 3.
Proof.
  intros s.
  assert (Hreach : App.reachable JS.parseFloat JS.JSON_parse s)
    by (exists Sample.finished; vm_compute; reflexivity).
  split; [exact Hreach | ].
  split; [ | split; vm_compute; reflexivity].
  exact (proj1 (score_is_at_most_the_number_of_problems
                  JS.parseFloat JS.JSON_parse s Hreach)).
Defined.

Lemma panel_verdict_is_the_recorded_flag_witness :
  let s := Sample.state_after Sample.third_submitted in
  App.reachable JS.parseFloat JS.JSON_parse s
  /\ gameState s = playing
  /\ showExplanation s = true
  /\ exists before item,
       history s = before ++ [item]
       /\ currentProblem s = Some (HistoryItem.problem item)
       /\ HistoryItem.userAnswer item = userAnswer s
       /\ panel_verdict JS.parseFloat s = Some (HistoryItem.isCorrect item).
Proof.
  intros s.
  assert (Hreach : App.reachable JS.parseFloat JS.JSON_parse s)
    by (exists Sample.third_submitted; vm_compute; reflexivity).
  assert (Hplay : gameState s = playing) by (vm_compute; reflexivity).
  assert (Hshown : showExplanation s = true) by (vm_compute; reflexivity).
  split; [exact Hreach | ]. split; [exact Hplay | ]. split; [exact Hshown | ].
  exact (panel_verdict_is_the_recorded_flag
           JS.parseFloat JS.JSON_parse s Hreach Hplay Hshown).
Defined.

Lemma next_label_tells_what_next_does_witness :
  let s := Sample.state_after Sample.third_submitted in
  App.reachable JS.parseFloat JS.JSON_parse s
  /\ gameState s = playing
  /\ showExplanation s = true
  /\ next_label s = "查看成绩 🏁"
  /\ gameState (Sample.step s click_next) = summary.
Proof.
  intros s.
  assert (Hreach : App.reachable JS.parseFloat JS.JSON_parse s)
    by (exists Sample.third_submitted; vm_compute; reflexivity).
  assert (Hplay : gameState s = playing) by (vm_compute; reflexivity).
  assert (Hshown : showExplanation s = true) by (vm_compute; reflexivity).
  assert (Hlabel : next_label s = "查看成绩 🏁") by (vm_compute; reflexivity).
  split; [exact Hreach | ]. split; [exact Hplay | ]. split; [exact Hshown | ].
  split; [exact Hlabel | ].
  exact (proj1 (proj1 (next_label_tells_what_next_does
                         JS.parseFloat JS.JSON_parse s Hreach Hplay Hshown))
           Hlabel).
Defined.

Lemma submit_disabled_iff_submit_is_noop_witness :
  let s := Sample.state_after Sample.started in
  App.reachable JS.parseFloat JS.JSON_parse s
  /\ gameState s = playing
  /\ showExplanation s = false
  /\ problems s <> []
  /\ submit_disabled s = true
  /\ Sample.step s submit = s.
Proof.
  intros s.
  assert (Hreach : App.reachable JS.parseFloat JS.JSON_parse s)
    by (exists Sample.started; vm_compute; reflexivity).
  assert (Hplay : gameState s = playing) by (vm_compute; reflexivity).
  assert (Hhidden : showExplanation s = false) by (vm_compute; reflexivity).
  assert (Hne : problems s <> []) by (vm_compute; discriminate).
  assert (Hdis : submit_disabled s = true) by (vm_compute; reflexivity).
  split; [exact Hreach | ]. split; [exact Hplay | ]. split; [exact Hhidden | ].
  split; [exact Hne | ]. split; [exact Hdis | ].
  exact (proj1 (submit_disabled_iff_submit_is_noop
                  JS.parseFloat JS.JSON_parse s Hreach Hplay Hhidden Hne)
           Hdis).
Defined.

(** The quiz on the fallback with every answer right. *)
Lemma short_quiz_gets_the_lowest_sentence_witness :
  let es := Sample.started ++ App.quiz_events ["1100"; "489"; "4700"] in
  let s := Sample.state_after es in
  App.reachable JS.parseFloat JS.JSON_parse s
  /\ gameState s = summary
  /\ List.length (problems s) < 8
  /\ score s = 3
  /\ summary_message (score s) = "干得不错！继续加油哦！💪".
Proof.
  intros es s.
  assert (Hreach : App.reachable JS.parseFloat JS.JSON_parse s)
    by (exists es; vm_compute; reflexivity).
  assert (Hsum : gameState s = summary) by (vm_compute; reflexivity).
  assert (Hshort : List.length (problems s) < 8) by (vm_compute; lia).
  split; [exact Hreach | ]. split; [exact Hsum | ]. split; [exact Hshort | ].
  split; [vm_compute; reflexivity | ].
  exact (short_quiz_gets_the_lowest_sentence
           JS.parseFloat JS.JSON_parse s Hreach Hsum Hshort).
Defined.

Lemma perfect_score_earns_top_sentence_on_ten_witness :
  let es := Sample.started ++ App.quiz_events ["1100"; "489"; "4700"] in
  let s := Sample.state_after es in
  App.reachable JS.parseFloat JS.JSON_parse s
  /\ gameState s = summary
  /\ Forall (fun item => HistoryItem.isCorrect item = true) (history s)
  /\ (summary_message (score s) = "太棒了！你是巧算大师！🏆" <->
      List.length (problems s) = 10).
Proof.
  intros es s.
  assert (Hreach : App.reachable JS.parseFloat JS.JSON_parse s)
    by (exists es; vm_compute; reflexivity).
  assert (Hsum : gameState s = summary) by (vm_compute; reflexivity).
  assert (Hall : Forall (fun item => HistoryItem.isCorrect item = true)
                   (history s))
    by (vm_compute; repeat constructor).
  split; [exact Hreach | ]. split; [exact Hsum | ]. split; [exact Hall | ].
  exact (perfect_score_earns_top_sentence_on_ten
           JS.parseFloat JS.JSON_parse s Hreach Hsum Hall).
Defined.

Lemma history_is_append_only_witness :
  let s := Sample.state_after Sample.first_submitted in
  let es := [click_next; change "abc"; submit; click_next; change "4700"] in
  let s' := Sample.state_after Sample.third_typed in
  App.run JS.parseFloat JS.JSON_parse s es = Some s'
  /\ (forall ai response, ~ In (settled ai response) es)
  /\ problems s' = problems s
  /\ (exists more, history s' = history s ++ more)
  /\ currentIndex s <= currentIndex s'
  /\ score s <= score s'.
Proof.
  intros s es s'.
  assert (Hrun : App.run JS.parseFloat JS.JSON_parse s es = Some s')
    by (vm_compute; reflexivity).
  assert (Hno : forall ai response, ~ In (settled ai response) es).
  { intros ai response Hin. simpl in Hin.
    repeat (destruct Hin as [Hin | Hin]; [discriminate Hin | ]).
    exact Hin. }
  split; [exact Hrun | ]. split; [exact Hno | ].
  exact (history_is_append_only JS.parseFloat JS.JSON_parse es s s' Hrun Hno).
Defined.

Lemma loading_waits_for_the_call_witness :
  let s := Sample.state_after [click_start] in
  let es := [settled Throw Throw; settled Throw (Normal None)] in
  gameState s = loading
  /\ App.run JS.parseFloat JS.JSON_parse s es = Some s
  /\ (forall ai response, In (settled ai response) es -> ai = Throw)
  /\ s = s.
Proof.
  intros s es.
  assert (Hload : gameState s = loading) by (vm_compute; reflexivity).
  assert (Hrun : App.run JS.parseFloat JS.JSON_parse s es = Some s)
    by (vm_compute; reflexivity).
  assert (Hall : forall ai response,
             In (settled ai response) es -> ai = Throw).
  { intros ai response Hin. simpl in Hin.
    destruct Hin as [Hin | [Hin | []]]; injection Hin as <- _; reflexivity. }
  split; [exact Hload | ]. split; [exact Hrun | ]. split; [exact Hall | ].
  exact (proj1 (loading_waits_for_the_call
                  JS.parseFloat JS.JSON_parse s es s Hload Hrun Hall)).
Defined.

Lemma generated_array_is_parsed_or_fallback_witness :
  generateDailyProblems JS.JSON_parse (Normal tt)
    (Normal (Some Sample.one_problem_text))
  = Normal Sample.one_problem
  /\ (Sample.one_problem = fallback
      \/ exists text,
           Normal (Some Sample.one_problem_text) = Normal (Some text)
           /\ text <> EmptyString
           /\ JS.JSON_parse text = Normal Sample.one_problem).
Proof.
  assert (Hgen : generateDailyProblems JS.JSON_parse (Normal tt)
                   (Normal (Some Sample.one_problem_text))
                 = Normal Sample.one_problem)
    by (vm_compute; reflexivity).
  split; [exact Hgen | ].
  exact (proj2 (generated_array_is_parsed_or_fallback JS.JSON_parse
                  (Normal tt) (Normal (Some Sample.one_problem_text)))
           Sample.one_problem Hgen).
Defined.

Lemma quiz_runs_to_the_summary_witness :
  let texts := ["1100"; "abc"; "4700"] in
  gameState initial = intro
  /\ generateDailyProblems JS.JSON_parse (Normal tt) Throw = Normal fallback
  /\ fallback <> []
  /\ List.length texts = List.length fallback
  /\ Forall (fun text => text <> EmptyString) texts
  /\ exists s',
       App.run JS.parseFloat JS.JSON_parse initial
         (click_start :: settled (Normal tt) Throw :: App.quiz_events texts)
       = Some s'
       /\ gameState s' = summary
       /\ problems s' = fallback
       /\ history s' = App.records JS.parseFloat fallback texts
       /\ score s' = correct_count (App.records JS.parseFloat fallback texts).
Proof.
  intros texts.
  assert (Hgen : generateDailyProblems JS.JSON_parse (Normal tt) Throw
                 = Normal fallback) by reflexivity.
  assert (Hne : fallback <> []) by discriminate.
  assert (Hlen : List.length texts = List.length fallback) by reflexivity.
  assert (Hfull : Forall (fun text => text <> EmptyString) texts)
    by (repeat constructor; discriminate).
  split; [reflexivity | ]. split; [exact Hgen | ]. split; [exact Hne | ].
  split; [exact Hlen | ]. split; [exact Hfull | ].
  exact (quiz_runs_to_the_summary JS.parseFloat JS.JSON_parse initial
           (Normal tt) Throw fallback texts (or_introl eq_refl)
           Hgen Hne Hlen Hfull).
Defined.

Lemma graded_correct_only_when_finite_witness :
  let p := {| question := "47 × 99 + 47"; answer := of_Z 4700;
              explanation := EmptyString; type := EmptyString |} in
  grade (JS.parseFloat "4700") p = true
  /\ finite (JS.parseFloat "4700") = true /\ finite (answer p) = true.
Proof.
  intros p.
  assert (Hgrade : grade (JS.parseFloat "4700") p = true)
    by (vm_compute; reflexivity).
  split; [exact Hgrade | ].
  exact (graded_correct_only_when_finite (JS.parseFloat "4700") p Hgrade).
Defined.

Lemma exact_answer_is_graded_correct_witness :
  let p := {| question := "47 × 99 + 47"; answer := of_Z 4700;
              explanation := EmptyString; type := EmptyString |} in
  answer p = JS.parseFloat "4700"
  /\ finite (JS.parseFloat "4700") = true
  /\ grade (JS.parseFloat "4700") p = true.
Proof.
  intros p.
  assert (Hans : answer p = JS.parseFloat "4700")
    by (vm_compute; reflexivity).
  assert (Hfin : finite (JS.parseFloat "4700") = true)
    by (vm_compute; reflexivity).
  split; [exact Hans | ]. split; [exact Hfin | ].
  exact (proj2 (exact_answer_is_graded_correct
                  (JS.parseFloat "4700") p Hans) Hfin).
Defined.

Lemma integer_answers_are_graded_by_equality_witness :
  let p := {| question := "47 × 99 + 47"; answer := of_Z 4700;
              explanation := EmptyString; type := EmptyString |} in
  (Z.abs 4700 < 2 ^ 53)%Z
  /\ (Z.abs 4699 < 2 ^ 53)%Z
  /\ JS.parseFloat "4699" = of_Z 4699
  /\ answer p = of_Z 4700
  /\ (grade (JS.parseFloat "4699") p = true <-> 4699%Z = 4700%Z).
Proof.
  intros p.
  assert (Ha : (Z.abs 4699 < 2 ^ 53)%Z) by (vm_compute; reflexivity).
  assert (Hb : (Z.abs 4700 < 2 ^ 53)%Z) by (vm_compute; reflexivity).
  assert (Hx : JS.parseFloat "4699" = of_Z 4699)
    by (vm_compute; reflexivity).
  assert (Hy : answer p = of_Z 4700) by reflexivity.
  split; [exact Hb | ]. split; [exact Ha | ]. split; [exact Hx | ].
  split; [exact Hy | ].
  exact (integer_answers_are_graded_by_equality
           4699 4700 (JS.parseFloat "4699") p Ha Hb Hx Hy).
Defined.
